(** * intra/protect: socket protection and resolver rewriting

    A shallow embedding of [intra/protect/protect.go] (package [protect])
    together with the functions of Go's [net] and [strings] packages it
    calls, and the properties of the resolver rewrite ([replaceIP]), the
    address-family matcher ([scan]), the socket control hook
    ([makeControl]) and the two factories ([MakeDialer],
    [MakeListenConfig]).

    Go strings are byte sequences: they are modelled by [string], whose
    characters are the 256 values of [ascii].  Go's [int] is modelled by
    [Z]; every index computed below stays far away from the 64-bit
    bounds. *)

From Stdlib Require Import ZArith String Ascii List Lia Bool.
From stdpp Require Import base list.
Import ListNotations.

Local Open Scope string_scope.
Local Open Scope Z_scope.

(** ** Byte strings, as Go indexes and slices them *)

Module GoString.

(** [len(s)] *)
Definition len (s : string) : Z := Z.of_nat (String.length s).

(** The numeric value of a byte. *)
Definition code (c : ascii) : Z := Z.of_N (N_of_ascii c).

(** [s[i]]; [None] stands for Go's out-of-range panic, which no call
    below can reach (every access is guarded by a length test). *)
Definition byteAt (s : string) (i : Z) : option ascii :=
  if i <? 0 then None else String.get (Z.to_nat i) s.

(** [s[i] == c] *)
Definition is_at (s : string) (i : Z) (c : ascii) : bool :=
  match byteAt s i with
  | Some x => Ascii.eqb x c
  | None => false
  end.

(** [s[i:]] *)
Fixpoint drop (n : nat) (s : string) : string :=
  match n, s with
  | O, _ => s
  | S n', String _ s' => drop n' s'
  | S _, EmptyString => EmptyString
  end.

(** [s[:i]] *)
Fixpoint take (n : nat) (s : string) : string :=
  match n, s with
  | S n', String c s' => String c (take n' s')
  | _, _ => EmptyString
  end.

Definition sliceFrom (s : string) (i : Z) : string := drop (Z.to_nat i) s.
Definition sliceTo (s : string) (j : Z) : string := take (Z.to_nat j) s.
Definition slice (s : string) (i j : Z) : string :=
  take (Z.to_nat (j - i)) (drop (Z.to_nat i) s).

(** [bytealg.IndexByteString(s, b)]: index of the first [b], or -1. *)
Fixpoint indexFrom (s : string) (b : ascii) (pos : Z) : Z :=
  match s with
  | EmptyString => -1
  | String c s' => if Ascii.eqb c b then pos else indexFrom s' b (pos + 1)
  end.

Definition IndexByteString (s : string) (b : ascii) : Z := indexFrom s b 0.

(** [net.last(s, b)]: index of the last [b], or -1. *)
Fixpoint lastFrom (s : string) (b : ascii) (pos : Z) : Z :=
  match s with
  | EmptyString => -1
  | String c s' =>
      let r := lastFrom s' b (pos + 1) in
      if 0 <=? r then r else if Ascii.eqb c b then pos else -1
  end.

Definition last (s : string) (b : ascii) : Z := lastFrom s b 0.

(** [strings.IndexByte(s, b) >= 0]: the byte [b] occurs in [s]. *)
Fixpoint hasByte (s : string) (b : ascii) : bool :=
  match s with
  | EmptyString => false
  | String c s' => Ascii.eqb c b || hasByte s' b
  end.

(** [strings.HasPrefix(s, prefix)] *)
Fixpoint HasPrefix (s prefix : string) : bool :=
  match prefix, s with
  | EmptyString, _ => true
  | String p prefix', String c s' => Ascii.eqb c p && HasPrefix s' prefix'
  | String _ _, EmptyString => false
  end.

Fixpoint rev_acc (s acc : string) : string :=
  match s with
  | EmptyString => acc
  | String c s' => rev_acc s' (String c acc)
  end.

(** The loop of [strings.genSplit] for a non-empty separator and no
    limit: [cur] holds the bytes of the piece being read, last byte
    first, and [skip] the bytes of a separator still to be passed. *)
Fixpoint split_loop (sep : string) (s : string) (skip : nat) (cur : string)
  : list string :=
  match s with
  | EmptyString => [rev_acc cur EmptyString]
  | String c s' =>
      match skip with
      | S k => split_loop sep s' k cur
      | O =>
          if HasPrefix s sep
          then rev_acc cur EmptyString
                 :: split_loop sep s' (String.length sep - 1) EmptyString
          else split_loop sep s' O (String c cur)
      end
  end.

(** [strings.Split(s, sep)].  For the empty separator Go explodes [s]
    into UTF-8 sequences; the one call site of this package passes
    [","], and that branch is given here for byte strings only. *)
Definition Split (s sep : string) : list string :=
  match sep with
  | EmptyString => map (fun c => String c EmptyString) (list_ascii_of_string s)
  | _ => split_loop sep s O EmptyString
  end.

End GoString.

Import GoString.

(** ** Errors

    Go's [error] values that this package can produce; the [error]
    interface's nil is [None] of [option error]. *)

Inductive error : Type :=
| errorString (s : string)         (* errors.New(s), fmt.Errorf without %w *)
| AddrError (Err Addr : string).   (* &net.AddrError{Err, Addr} *)

(** ** Package [net]: IP literals *)

Module net.

Definition IPv4len : Z := 4.
Definition IPv6len : Z := 16.

(** [net.IP] is a byte slice; the nil slice is [None] of [option IP]. *)
Definition IP : Type := list Z.

(** Bigger than we need, not too big to worry about overflow. *)
Definition big : Z := 0xFFFFFF.

Definition byte (n : Z) : Z := n mod 256.

Definition is_digit (c : ascii) : bool :=
  (code "0" <=? code c) && (code c <=? code "9").

(** Decimal to integer: [(n, i, ok)], the value, the number of bytes
    read and whether a number was read at all. *)
Fixpoint dtoi_loop (s : string) (n i : Z) : Z * Z * bool :=
  match s with
  | String c s' =>
      if is_digit c then
        let n := n * 10 + (code c - code "0") in
        if big <=? n then (big, i, false) else dtoi_loop s' n (i + 1)
      else if i =? 0 then (0, 0, false) else (n, i, true)
  | EmptyString => if i =? 0 then (0, 0, false) else (n, i, true)
  end.

Definition dtoi (s : string) : Z * Z * bool := dtoi_loop s 0 0.

(** Hexadecimal to integer. *)
Definition hexval (c : ascii) : option Z :=
  if (code "0" <=? code c) && (code c <=? code "9") then Some (code c - code "0")
  else if (code "a" <=? code c) && (code c <=? code "f") then Some (code c - code "a" + 10)
  else if (code "A" <=? code c) && (code c <=? code "F") then Some (code c - code "A" + 10)
  else None.

Fixpoint xtoi_loop (s : string) (n i : Z) : Z * Z * bool :=
  match s with
  | String c s' =>
      match hexval c with
      | Some v =>
          let n := n * 16 + v in
          if big <=? n then (0, i, false) else xtoi_loop s' n (i + 1)
      | None => if i =? 0 then (0, i, false) else (n, i, true)
      end
  | EmptyString => if i =? 0 then (0, i, false) else (n, i, true)
  end.

Definition xtoi (s : string) : Z * Z * bool := xtoi_loop s 0 0.

Definition len_list (p : list Z) : Z := Z.of_nat (List.length p).

(** [p[i] = v] on a slice that is long enough. *)
Definition set (p : list Z) (i v : Z) : list Z := <[Z.to_nat i := v]> p.

(** [p[i]] *)
Definition get (p : list Z) (i : Z) : Z := nth (Z.to_nat i) p 0.

Definition v4InV6Prefix : list Z := [0; 0; 0; 0; 0; 0; 0; 0; 0; 0; 0xff; 0xff].

(** [net.IPv4(a, b, c, d)]: the 16-byte form of an IPv4 address. *)
Definition IPv4 (a b c d : Z) : IP := (v4InV6Prefix ++ [a; b; c; d])%list.

(** The loop of [parseIPv4] over the four octets; [k] counts the
    iterations that remain, [i] is the loop variable. *)
Fixpoint parseIPv4_loop (k : nat) (i : Z) (s : string) (p : list Z)
  : option (string * list Z) :=
  match k with
  | O => Some (s, p)
  | S k' =>
      if len s =? 0 then None (* missing octets *) else
      match (if 0 <? i
             then if is_at s 0 "." then Some (sliceFrom s 1) else None
             else Some s) with
      | None => None
      | Some s =>
          let '(n, c, ok) := dtoi s in
          if negb ok || (0xFF <? n) then None
          else if (1 <? c) && is_at s 0 "0" then None (* leading zeroes *)
          else parseIPv4_loop k' (i + 1) (sliceFrom s c) (set p i (byte n))
      end
  end.

Definition parseIPv4 (s : string) : option IP :=
  match parseIPv4_loop 4 0 s [0; 0; 0; 0] with
  | None => None
  | Some (s, p) =>
      if negb (len s =? 0) then None
      else Some (IPv4 (get p 0) (get p 1) (get p 2) (get p 3))
  end.

(** The [for j := hi; j >= lo; j--] loops of [parseIPv6]; [cnt] bounds
    the number of iterations (a slice of 16 bytes is walked). *)
Fixpoint for_down (cnt : nat) (j lo : Z) (body : Z -> list Z -> list Z)
  (ip : list Z) : list Z :=
  match cnt with
  | O => ip
  | S cnt' => if lo <=? j then for_down cnt' (j - 1) lo body (body j ip) else ip
  end.

(** How one iteration of the main loop of [parseIPv6] ends: with
    [return nil], with [break], or at the end of the body, and in the
    last two cases with the variables [(ip, ellipsis, i, s)]. *)
Inductive iteration : Type :=
| ReturnNil
| Break (ip : list Z) (ellipsis i : Z) (s : string)
| Continue (ip : list Z) (ellipsis i : Z) (s : string).

(** The body of the main loop of [parseIPv6]: a hex number, then a colon
    or the end of the string. *)
Definition parseIPv6_body (ip : list Z) (ellipsis i : Z) (s : string) : iteration :=
  (* Hex number. *)
  let '(n, c, ok) := xtoi s in
  if negb ok || (0xFFFF <? n) then ReturnNil
  (* If followed by dot, might be in trailing IPv4. *)
  else if (c <? len s) && is_at s c "." then
    if (ellipsis <? 0) && negb (i =? IPv6len - IPv4len) then ReturnNil
    else if IPv6len <? i + IPv4len then ReturnNil
    else match parseIPv4 s with
         | None => ReturnNil
         | Some ip4 =>
             let ip := set ip i (get ip4 12) in
             let ip := set ip (i + 1) (get ip4 13) in
             let ip := set ip (i + 2) (get ip4 14) in
             let ip := set ip (i + 3) (get ip4 15) in
             Break ip ellipsis (i + IPv4len) EmptyString
         end
  else
    (* Save this 16-bit chunk. *)
    let ip := set ip i (byte (Z.shiftr n 8)) in
    let ip := set ip (i + 1) (byte n) in
    let i := i + 2 in
    (* Stop at end of string. *)
    let s := sliceFrom s c in
    if len s =? 0 then Break ip ellipsis i s
    (* Otherwise must be followed by colon and more. *)
    else if negb (is_at s 0 ":") || (len s =? 1) then ReturnNil
    else
      let s := sliceFrom s 1 in
      (* Look for ellipsis. *)
      if is_at s 0 ":" then
        if 0 <=? ellipsis then ReturnNil (* already have one *)
        else
          let ellipsis := i in
          let s := sliceFrom s 1 in
          if len s =? 0 then Break ip ellipsis i s (* can be at end *)
          else Continue ip ellipsis i s
      else Continue ip ellipsis i s.

(** The main loop of [parseIPv6], [for i < IPv6len { ... }].  Every
    iteration that continues adds 2 to [i], so the 8 iterations that
    [fuel] allows in [parseIPv6] are never used up.  The result is the
    state [(ip, ellipsis, i, s)] at the exit of the loop, or [None] where
    the source returns nil. *)
Fixpoint parseIPv6_loop (fuel : nat) (ip : list Z) (ellipsis i : Z) (s : string)
  : option (list Z * Z * Z * string) :=
  if negb (i <? IPv6len) then Some (ip, ellipsis, i, s) else
  match fuel with
  | O => None
  | S fuel' =>
      match parseIPv6_body ip ellipsis i s with
      | ReturnNil => None
      | Break ip ellipsis i s => Some (ip, ellipsis, i, s)
      | Continue ip ellipsis i s => parseIPv6_loop fuel' ip ellipsis i s
      end
  end.

Definition zeros16 : list Z := repeat 0 16.

(** [parseIPv6] parses [s] as a literal IPv6 address described in
    RFC 4291 and RFC 5952. *)
Definition parseIPv6 (s : string) : option IP :=
  let ip := zeros16 in
  (* Might have leading ellipsis *)
  let lead := (2 <=? len s) && is_at s 0 ":" && is_at s 1 ":" in
  let ellipsis := if lead then 0 else -1 in
  let s := if lead then sliceFrom s 2 else s in
  (* Might be only ellipsis *)
  if lead && (len s =? 0) then Some ip else
  match parseIPv6_loop 8 ip ellipsis 0 s with
  | None => None
  | Some (ip, ellipsis, i, s) =>
      (* Must have used entire string. *)
      if negb (len s =? 0) then None
      (* If didn't parse enough, expand ellipsis. *)
      else if i <? IPv6len then
        if ellipsis <? 0 then None
        else
          let n := IPv6len - i in
          let ip := for_down 16 (i - 1) ellipsis
                      (fun j ip => set ip (j + n) (get ip j)) ip in
          let ip := for_down 16 (ellipsis + n - 1) ellipsis
                      (fun j ip => set ip j 0) ip in
          Some ip
      (* Ellipsis must represent at least one 0 group. *)
      else if 0 <=? ellipsis then None
      else Some ip
  end.

(** The scan of [ParseIP] for the first ['.'] or [':'] of [s]; [rest]
    is the part of [s] not yet looked at. *)
Fixpoint ParseIP_loop (s rest : string) : option IP :=
  match rest with
  | EmptyString => None
  | String c rest' =>
      if Ascii.eqb c "." then parseIPv4 s
      else if Ascii.eqb c ":" then parseIPv6 s
      else ParseIP_loop s rest'
  end.

(** [net.ParseIP(s)]: an IPv4 dotted decimal, an IPv6 or an
    IPv4-mapped IPv6 literal; nil ([None]) when [s] is none of them. *)
Definition ParseIP (s : string) : option IP := ParseIP_loop s s.

Definition isZeros (p : list Z) : bool := forallb (Z.eqb 0) p.

(** [ip.To4()]: the 4-byte form of an IPv4 address, nil otherwise. *)
Definition To4 (ip : IP) : option IP :=
  if len_list ip =? IPv4len then Some ip
  else if (len_list ip =? IPv6len) && isZeros (firstn 10 ip)
          && (get ip 10 =? 0xff) && (get ip 11 =? 0xff)
  then Some (firstn 4 (skipn 12 ip))
  else None.

(** ** Package [net]: transport addresses *)

Definition missingPort : string := "missing port in address".
Definition tooManyColons : string := "too many colons in address".

Definition addrErr (addr why : string) : string * string * option error :=
  (EmptyString, EmptyString, Some (AddrError why addr)).

(** [net.SplitHostPort(hostport)] splits a network address of the form
    "host:port", "host%zone:port", "[host]:port" or "[host%zone]:port"
    into host or host%zone and port; the result is Go's triple
    [(host, port, err)]. *)
Definition SplitHostPort (hostport : string) : string * string * option error :=
  (* The port starts after the last colon. *)
  let i := last hostport ":" in
  if i <? 0 then addrErr hostport missingPort else
  let bracketed := is_at hostport 0 "[" in
  let checked : option error + (string * Z * Z) :=
    if bracketed then
      (* Expect the first ']' just before the last ':'. *)
      let fin := IndexByteString hostport "]" in
      if fin <? 0 then inl (Some (AddrError "missing ']' in address" hostport))
      else if fin + 1 =? len hostport then
        (* There can't be a ':' behind the ']' now. *)
        inl (Some (AddrError missingPort hostport))
      else if fin + 1 =? i then
        (* The expected result. *)
        inr (slice hostport 1 fin, 1, fin + 1)
      else
        (* Either ']' isn't followed by a colon, or it is followed by a
           colon that is not the last one. *)
        if is_at hostport (fin + 1) ":"
        then inl (Some (AddrError tooManyColons hostport))
        else inl (Some (AddrError missingPort hostport))
    else
      let host := sliceTo hostport i in
      if 0 <=? IndexByteString host ":"
      then inl (Some (AddrError tooManyColons hostport))
      else inr (host, 0, 0)
  in
  match checked with
  | inl err => (EmptyString, EmptyString, err)
  | inr (host, j, k) =>
      if 0 <=? IndexByteString (sliceFrom hostport j) "["
      then addrErr hostport "unexpected '[' in address"
      else if 0 <=? IndexByteString (sliceFrom hostport k) "]"
      then addrErr hostport "unexpected ']' in address"
      else (host, sliceFrom hostport (i + 1), None)
  end.

(** [net.JoinHostPort(host, port)] combines host and port into a
    network address of the form "host:port"; a host with a colon, as
    found in literal IPv6 addresses, gives "[host]:port". *)
Definition JoinHostPort (host port : string) : string :=
  if 0 <=? IndexByteString host ":"
  then ("[" ++ host ++ "]:" ++ port)%string
  else (host ++ ":" ++ port)%string.

End net.

(** ** Package [errors] and [fmt] *)

Module errors.
Definition New (text : string) : error := errorString text.
End errors.

Module fmt.
(** [fmt.Errorf(prefix + "%s", arg)]: the one shape of format used by
    this package, a constant text followed by one [%s] verb. *)
Definition Errorf1 (prefix arg : string) : error :=
  errorString (prefix ++ arg)%string.
End fmt.

(** The text of an error, [err.Error()]. *)
Definition Error (e : error) : string :=
  match e with
  | errorString s => s
  | AddrError why addr =>
      if String.eqb addr EmptyString then why
      else ("address " ++ addr ++ ": " ++ why)%string
  end.

(** ** Package [protect]: the pure part *)

(** [x != nil] for a slice or an interface value. *)
Definition notNil {A : Type} (x : option A) : bool :=
  match x with
  | Some _ => true
  | None => false
  end.

Definition NetIdBlock : string := "block".
Definition NetIdActive : string := "allow".

(** [parsed.To4() != nil]: the family of a parsed address. *)
Definition isV4 (parsed : net.IP) : bool := notNil (net.To4 parsed).

(** Returns the first IP address that is of the desired family. *)
Fixpoint scan (ips : list string) (wantV4 : bool) : string :=
  match ips with
  | [] => EmptyString
  | ip :: ips' =>
      match net.ParseIP ip with
      | None => scan ips' wantV4 (* [ip] failed to parse.  Skip it. *)
      | Some parsed =>
          if Bool.eqb (isV4 parsed) wantV4 then ip else scan ips' wantV4
      end
  end.

(** Given a slice of IP addresses, and a transport address, return a
    transport address with the IP replaced by the first IP of the same
    family in [ips], or by the first address of a different family if
    there are none of the same.  The result is Go's pair
    [(string, error)]. *)
Definition replaceIP (addr : string) (ips : list string) : string * option error :=
  match ips with
  | [] => (EmptyString, Some (errors.New "no resolvers"))
  | ips0 :: _ =>
      let '(orighost, port, err) := net.SplitHostPort addr in
      match err with
      | Some e => (EmptyString, Some e)
      | None =>
          match net.ParseIP orighost with
          | None => (EmptyString,
                     Some (fmt.Errorf1 "cannot parse resolver-ip: " orighost))
          | Some origip =>
              let newIP := scan ips (isV4 origip) in
              let newIP :=
                if String.eqb newIP EmptyString
                then ips0 (* no IPs of the desired family: use a different one *)
                else newIP in
              (net.JoinHostPort newIP port, None)
          end
      end
  end.

(** ** Package [protect]: sockets, hooks and factories

    The calls that leave the package change the world: the Protector of
    the host (its state is [PS]), the logger and the network.  They are
    threaded through a state monad over [Env]; what the package itself
    asks of the world is recorded, in order, in [trace]. *)

Section Protect.

(** The state of the host's Protector, [context.Context] and
    [net.Conn]: opaque to this package. *)
Variables PS Context Conn : Type.

(** Protector provides the ability to bypass a VPN on Android,
    pre-Lollipop.  Both methods are calls into the host. *)
Record Protector : Type := {
  (* Protect a socket, i.e. exclude it from the VPN. *)
  Protect : Z -> PS -> bool * PS;
  (* A comma-separated list of the system's configured DNS resolvers,
     in roughly descending priority order. *)
  GetResolvers : PS -> string * PS
}.

(** Pointers into the heap of [net] objects. *)
Definition ptr : Type := nat.

Inductive Event : Type :=
| EvProtect (socket : Z) (ok : bool)
| EvGetResolvers (resolvers : string)
| EvErrorf (msg : string)
| EvDialContext (d : ptr) (network address : string).

Record Env : Type := { pstate : PS; trace : list Event }.

Definition M (A : Type) : Type := Env -> A * Env.

Definition ret {A : Type} (a : A) : M A := fun e => (a, e).

Definition bind {A B : Type} (m : M A) (k : A -> M B) : M B :=
  fun e => let '(a, e') := m e in k a e'.

Notation "'let*' x ':=' m 'in' k" := (bind m (fun x => k))
  (at level 10, x name, m at level 100, k at level 200).
Notation "m '>>' k" := (bind m (fun _ => k))
  (at level 65, right associativity).

Definition emit (ev : Event) : M unit :=
  fun e => (tt, {| pstate := pstate e; trace := (trace e ++ [ev])%list |}).

(** [p.Protect(socket)] *)
Definition call_Protect (p : Protector) (socket : Z) : M bool :=
  fun e =>
    let '(ok, ps) := Protect p socket (pstate e) in
    (ok, {| pstate := ps; trace := (trace e ++ [EvProtect socket ok])%list |}).

(** [p.GetResolvers()] *)
Definition call_GetResolvers (p : Protector) : M string :=
  fun e =>
    let '(r, ps) := GetResolvers p (pstate e) in
    (r, {| pstate := ps; trace := (trace e ++ [EvGetResolvers r])%list |}).

(** [log.Errorf(prefix + "%s" + suffix, arg)] of go-tun2socks. *)
Definition log_Errorf (prefix arg suffix : string) : M unit :=
  emit (EvErrorf (prefix ++ arg ++ suffix)%string).

(** [int32(fd)] for [fd uintptr]: the low 32 bits, read as signed. *)
Definition int32 (fd : Z) : Z :=
  let m := fd mod 2 ^ 32 in
  if m <? 2 ^ 31 then m else m - 2 ^ 32.

(** [syscall.RawConn], as package [net] implements it for its
    sockets: [Control] runs [f] once on the file descriptor and
    returns nil, or, when the descriptor is no longer usable, returns
    an error without running [f]. *)
Inductive RawConn : Type :=
| RawConnFD (Sysfd : Z)
| RawConnClosed (err : error).

Definition RawConn_Control (c : RawConn) (f : Z -> M unit) : M (option error) :=
  match c with
  | RawConnFD fd => f fd >> ret None
  | RawConnClosed err => ret (Some err)
  end.

Definition ControlFn : Type := string -> string -> RawConn -> M (option error).
Definition DialFn : Type := Context -> string -> string -> M (option Conn * option error).

Definition makeControl (p : Protector) : ControlFn :=
  fun network address c =>
    RawConn_Control c (fun fd =>
      let* ok := call_Protect p (int32 fd) in
      if negb ok
      then log_Errorf "Failed to protect a " network " socket"
      else ret tt).

(** [net.Resolver], [net.Dialer] and [net.ListenConfig]; durations and
    times are numbers, 0 being the zero value. *)
Record Resolver : Type := {
  PreferGo : bool;
  StrictErrors : bool;
  Resolver_Dial : option DialFn
}.

Record Dialer : Type := {
  Timeout : Z;
  Deadline : Z;
  LocalAddr : option string;
  DualStack : bool;
  FallbackDelay : Z;
  KeepAlive : Z;
  Dialer_Resolver : option ptr;
  Dialer_Control : option ControlFn
}.

Record ListenConfig : Type := {
  ListenConfig_Control : option ControlFn;
  ListenConfig_KeepAlive : Z
}.

(** [net.Dialer{}], [net.Resolver{}], [net.ListenConfig{}] *)
Definition zeroDialer : Dialer :=
  {| Timeout := 0; Deadline := 0; LocalAddr := None; DualStack := false;
     FallbackDelay := 0; KeepAlive := 0; Dialer_Resolver := None;
     Dialer_Control := None |}.

Definition zeroResolver : Resolver :=
  {| PreferGo := false; StrictErrors := false; Resolver_Dial := None |}.

Definition zeroListenConfig : ListenConfig :=
  {| ListenConfig_Control := None; ListenConfig_KeepAlive := 0 |}.

(** The heap: the objects the factories allocate with [&T{...}]. *)
Inductive Obj : Type :=
| ODialer (d : Dialer)
| OResolver (r : Resolver)
| OListenConfig (l : ListenConfig).

Local Abbreviation Heap := (list Obj).

(** [&T{...}]: a fresh cell at the end of the heap. *)
Definition new (o : Obj) (h : Heap) : ptr * Heap :=
  (List.length h, (h ++ [o])%list).

(** [d.DialContext(ctx, network, address)] of package [net]: the
    request is recorded, its outcome is the network's. *)
Variable connect : ptr -> Context -> string -> string -> M (option Conn * option error).

Definition DialContext (d : ptr) (ctx : Context) (network address : string)
  : M (option Conn * option error) :=
  emit (EvDialContext d network address) >>
  connect d ctx network address.

(** The closure [resolverDialer] of [MakeDialer]; it captures the
    Protector [p] and the pointer [d] to the Dialer being built. *)
Definition resolverDialer (p : Protector) (d : ptr) : DialFn :=
  fun ctx network address =>
    let* r := call_GetResolvers p in
    let resolvers := Split r "," in
    let '(newAddress, err) := replaceIP address resolvers in
    match err with
    | Some e => ret (None, Some e)
    | None => DialContext d ctx network newAddress
    end.

(** [d.Resolver = r] *)
Definition set_Resolver (d : ptr) (r : ptr) (h : Heap) : Heap :=
  match h !! d with
  | Some (ODialer dl) =>
      <[d := ODialer {| Timeout := Timeout dl; Deadline := Deadline dl;
                        LocalAddr := LocalAddr dl; DualStack := DualStack dl;
                        FallbackDelay := FallbackDelay dl;
                        KeepAlive := KeepAlive dl;
                        Dialer_Resolver := Some r;
                        Dialer_Control := Dialer_Control dl |}]> h
  | _ => h
  end.

(** MakeDialer creates a new Dialer.  Recipients can safely mutate any
    public field except Control and Resolver, which are both
    populated. *)
Definition MakeDialer (p : option Protector) (h : Heap) : ptr * Heap :=
  match p with
  | None => new (ODialer zeroDialer) h
  | Some p =>
      let '(d, h) :=
        new (ODialer {| Timeout := 0; Deadline := 0; LocalAddr := None;
                        DualStack := false; FallbackDelay := 0;
                        KeepAlive := 0; Dialer_Resolver := None;
                        Dialer_Control := Some (makeControl p) |}) h in
      let '(r, h) :=
        new (OResolver {| PreferGo := true; StrictErrors := false;
                          Resolver_Dial := Some (resolverDialer p d) |}) h in
      (d, set_Resolver d r h)
  end.

(** MakeListenConfig returns a new ListenConfig that creates protected
    listener sockets. *)
Definition MakeListenConfig (p : option Protector) (h : Heap) : ptr * Heap :=
  match p with
  | None => new (OListenConfig zeroListenConfig) h
  | Some p =>
      new (OListenConfig {| ListenConfig_Control := Some (makeControl p);
                            ListenConfig_KeepAlive := 0 |}) h
  end.

End Protect.

Abbreviation Heap PS Context Conn := (list (Obj PS Context Conn)) (only parsing).

Arguments Protect {PS} _ _ _.
Arguments GetResolvers {PS} _ _.
Arguments pstate {PS} _.
Arguments trace {PS} _.
Arguments Build_Env {PS} _ _.
Arguments ret {PS A} _ _.
Arguments bind {PS A B} _ _ _.
Arguments emit {PS} _ _.
Arguments call_Protect {PS} _ _ _.
Arguments call_GetResolvers {PS} _ _.
Arguments log_Errorf {PS} _ _ _ _.
Arguments RawConn_Control {PS} _ _ _.
Arguments makeControl {PS} _ _ _ _ _.
Arguments PreferGo {PS Context Conn} _.
Arguments StrictErrors {PS Context Conn} _.
Arguments Resolver_Dial {PS Context Conn} _.
Arguments Timeout {PS} _.
Arguments Deadline {PS} _.
Arguments LocalAddr {PS} _.
Arguments DualStack {PS} _.
Arguments FallbackDelay {PS} _.
Arguments KeepAlive {PS} _.
Arguments Dialer_Resolver {PS} _.
Arguments Dialer_Control {PS} _.
Arguments ListenConfig_Control {PS} _.
Arguments ListenConfig_KeepAlive {PS} _.
Arguments zeroDialer {PS}.
Arguments zeroResolver {PS Context Conn}.
Arguments zeroListenConfig {PS}.
Arguments ODialer {PS Context Conn} _.
Arguments OResolver {PS Context Conn} _.
Arguments OListenConfig {PS Context Conn} _.
Arguments new {PS Context Conn} _ _.
Arguments DialContext {PS Context Conn} _ _ _ _ _ _.
Arguments resolverDialer {PS Context Conn} _ _ _ _ _ _ _.
Arguments set_Resolver {PS Context Conn} _ _ _.
Arguments MakeDialer {PS Context Conn} _ _ _.
Arguments MakeListenConfig {PS Context Conn} _ _.

(** ** Vocabulary of the properties *)

(** [ip] parses as an IP address of the family asked for. *)
Definition matches (wantV4 : bool) (ip : string) : Prop :=
  exists parsed, net.ParseIP ip = Some parsed /\ isV4 parsed = wantV4.

(** What [scan] returns, by cases on the list: the first entry that
    matches, all entries before it being skipped, or the empty string. *)
Inductive scan_result (wantV4 : bool) (ips : list string) (r : string) : Prop :=
| scan_found (before after : list string) :
    ips = (before ++ r :: after)%list ->
    Forall (fun x => ~ matches wantV4 x) before ->
    matches wantV4 r ->
    scan_result wantV4 ips r
| scan_nothing :
    Forall (fun x => ~ matches wantV4 x) ips ->
    r = EmptyString ->
    scan_result wantV4 ips r.

(** The names the specification gives to the errors of [replaceIP]:
    [NoResolvers] is the error made by [errors.New("no resolvers")];
    [InvalidAddress] is either the [*net.AddrError] of
    [net.SplitHostPort] or the "cannot parse resolver-ip" error. *)
Definition NoResolvers (e : error) : Prop :=
  e = errors.New "no resolvers".

Definition InvalidAddress (e : error) : Prop :=
  (exists why addr, e = AddrError why addr) \/
  (exists host, e = fmt.Errorf1 "cannot parse resolver-ip: " host).

(** A byte that can occur in an IP literal: a hexadecimal digit, a dot
    or a colon. *)
Definition literalByte (b : ascii) : bool :=
  notNil (net.hexval b) || Ascii.eqb b "." || Ascii.eqb b ":".

(** The test [scan] applies to an entry, as a function. *)
Definition matchesb (wantV4 : bool) (ip : string) : bool :=
  match net.ParseIP ip with
  | Some parsed => Bool.eqb (isV4 parsed) wantV4
  | None => false
  end.

(** A host for the examples: its Protector counts the calls made to it,
    answers [ok] to every [Protect] and always lists [resolvers]; its
    network accepts every connection and hands out the Dialer's pointer
    as the connection. *)
Definition hostProtector (ok : bool) (resolvers : string) : Protector nat :=
  {| Protect := fun _ n => (ok, S n);
     GetResolvers := fun n => (resolvers, S n) |}.

Definition reach : ptr -> unit -> string -> string -> M nat (option nat * option error) :=
  fun d _ _ _ env => ((Some d, None), env).

(** * Properties *)

(** ** Byte strings *)

Lemma append_assoc (a b c : string) : (a ++ (b ++ c))%string = ((a ++ b) ++ c)%string.
Proof. induction a as [|x a IH]; simpl; [reflexivity | rewrite IH; reflexivity]. Qed.

Lemma length_append (a b : string) :
  String.length (a ++ b) = (String.length a + String.length b)%nat.
Proof. induction a as [|x a IH]; simpl; [reflexivity | rewrite IH; reflexivity]. Qed.

Lemma len_nonneg (s : string) : 0 <= len s.
Proof. unfold len. lia. Qed.

Lemma len_String (c : ascii) (s : string) : len (String c s) = len s + 1.
Proof. unfold len. simpl String.length. lia. Qed.

Lemma len_app (a t : string) : len (a ++ t) = len a + len t.
Proof.
  induction a as [|c a IH]; simpl.
  - unfold len. simpl. lia.
  - rewrite !len_String, IH. lia.
Qed.

Lemma len_zero (s : string) : len s = 0 -> s = EmptyString.
Proof. destruct s; [reflexivity|]. rewrite len_String. pose proof (len_nonneg s). lia. Qed.

Lemma hasByte_app (a t : string) (b : ascii) :
  hasByte (a ++ t) b = hasByte a b || hasByte t b.
Proof.
  induction a as [|c a IH]; simpl; [reflexivity|].
  rewrite IH, orb_assoc. reflexivity.
Qed.

Lemma take_drop (n : nat) (s : string) : (take n s ++ drop n s)%string = s.
Proof.
  revert s. induction n as [|n IH]; intros [|c s]; simpl; try reflexivity.
  rewrite IH. reflexivity.
Qed.

Lemma drop_app_length (a t : string) : drop (String.length a) (a ++ t) = t.
Proof. induction a as [|c a IH]; simpl; [destruct t; reflexivity | exact IH]. Qed.

Lemma take_app_length (a t : string) : take (String.length a) (a ++ t) = a.
Proof.
  induction a as [|c a IH]; simpl; [destruct t; reflexivity|].
  rewrite IH. reflexivity.
Qed.

Lemma drop_drop (n m : nat) (s : string) : drop m (drop n s) = drop (n + m) s.
Proof.
  revert s. induction n as [|n IH]; intros s; simpl; [reflexivity|].
  destruct s as [|c s]; [destruct m; reflexivity | apply IH].
Qed.

Lemma hasByte_drop (n : nat) (s : string) (b : ascii) :
  hasByte s b = false -> hasByte (drop n s) b = false.
Proof.
  intros H. rewrite <- (take_drop n s), hasByte_app in H.
  apply orb_false_elim in H. apply H.
Qed.

Lemma hasByte_drop_le (n m : nat) (s : string) (b : ascii) :
  (n <= m)%nat -> hasByte (drop n s) b = false -> hasByte (drop m s) b = false.
Proof.
  intros Hle H. replace m with (n + (m - n))%nat by lia.
  rewrite <- drop_drop. apply hasByte_drop, H.
Qed.

Lemma indexFrom_none (s : string) (b : ascii) (pos : Z) :
  hasByte s b = false -> indexFrom s b pos = -1.
Proof.
  revert pos. induction s as [|c s IH]; intros pos H; simpl in *; [reflexivity|].
  apply orb_false_elim in H. destruct H as [Hc Hs].
  rewrite Hc. apply IH, Hs.
Qed.

Lemma indexFrom_some (s : string) (b : ascii) (pos : Z) :
  hasByte s b = true -> pos <= indexFrom s b pos.
Proof.
  revert pos. induction s as [|c s IH]; intros pos H; simpl in *; [discriminate H|].
  destruct (Ascii.eqb c b); [lia|].
  specialize (IH (pos + 1) H). lia.
Qed.

Lemma IndexByteString_hasByte (s : string) (b : ascii) :
  (0 <=? IndexByteString s b) = hasByte s b.
Proof.
  unfold IndexByteString. destruct (hasByte s b) eqn:H.
  - apply Z.leb_le, indexFrom_some, H.
  - rewrite (indexFrom_none _ _ _ H). reflexivity.
Qed.

Lemma IndexByteString_neg (s : string) (b : ascii) :
  (IndexByteString s b <? 0) = negb (hasByte s b).
Proof. rewrite <- IndexByteString_hasByte. lia. Qed.

Lemma indexFrom_app (a t : string) (b : ascii) (pos : Z) :
  hasByte a b = false -> indexFrom (a ++ String b t) b pos = pos + len a.
Proof.
  revert pos. induction a as [|c a IH]; intros pos H; simpl in *.
  - rewrite Ascii.eqb_refl. unfold len. simpl. lia.
  - apply orb_false_elim in H. destruct H as [Hc Ha].
    rewrite Hc, (IH _ Ha), len_String. lia.
Qed.

Lemma lastFrom_hasByte (s : string) (b : ascii) (pos : Z) :
  0 <= pos -> (0 <=? lastFrom s b pos) = hasByte s b.
Proof.
  revert pos. induction s as [|c s IH]; intros pos Hpos; simpl; [reflexivity|].
  specialize (IH (pos + 1) ltac:(lia)).
  destruct (0 <=? lastFrom s b (pos + 1)) eqn:Hr.
  - rewrite Hr, <- IH. symmetry. apply orb_true_r.
  - rewrite <- IH, orb_false_r.
    destruct (Ascii.eqb c b); [apply Z.leb_le; lia | reflexivity].
Qed.

Lemma lastFrom_ge (s : string) (b : ascii) (pos : Z) :
  0 <= lastFrom s b pos -> pos <= lastFrom s b pos.
Proof.
  revert pos. induction s as [|c s IH]; intros pos; simpl; [lia|].
  destruct (0 <=? lastFrom s b (pos + 1)) eqn:Hr.
  - apply Z.leb_le in Hr. specialize (IH _ Hr). lia.
  - destruct (Ascii.eqb c b); lia.
Qed.

Lemma lastFrom_app (a t : string) (b : ascii) (pos : Z) :
  0 <= pos -> hasByte t b = false ->
  lastFrom (a ++ String b t) b pos = pos + len a.
Proof.
  revert pos. induction a as [|c a IH]; intros pos Hpos Ht; simpl.
  - rewrite <- (lastFrom_hasByte t b (pos + 1)) in Ht by lia.
    rewrite Ht, Ascii.eqb_refl. unfold len. simpl. lia.
  - rewrite (IH (pos + 1)) by (lia || exact Ht).
    pose proof (len_nonneg a).
    destruct (0 <=? pos + 1 + len a) eqn:E; [|lia].
    rewrite len_String. lia.
Qed.

(** No [b] after the last [b]. *)
Lemma lastFrom_drop (s : string) (b : ascii) (pos : Z) :
  0 <= pos -> 0 <= lastFrom s b pos ->
  hasByte (drop (Z.to_nat (lastFrom s b pos - pos + 1)) s) b = false.
Proof.
  revert pos. induction s as [|c s IH]; intros pos Hpos; simpl lastFrom; [lia|].
  pose proof (lastFrom_hasByte s b (pos + 1) ltac:(lia)) as Hh.
  destruct (0 <=? lastFrom s b (pos + 1)) eqn:Hr.
  - intros _. apply Z.leb_le in Hr.
    pose proof (lastFrom_ge _ _ _ Hr) as Hge.
    specialize (IH (pos + 1) ltac:(lia) Hr).
    replace (Z.to_nat (lastFrom s b (pos + 1) - pos + 1))
      with (S (Z.to_nat (lastFrom s b (pos + 1) - (pos + 1) + 1))) by lia.
    exact IH.
  - destruct (Ascii.eqb c b); [|lia].
    intros _. replace (pos - pos + 1) with 1 by lia. simpl. symmetry. exact Hh.
Qed.

Lemma is_at_head (c : ascii) (s : string) (b : ascii) :
  is_at (String c s) 0 b = Ascii.eqb c b.
Proof. reflexivity. Qed.

Lemma is_at_0_nohead (s : string) (b : ascii) :
  hasByte s b = false -> is_at s 0 b = false.
Proof.
  destruct s as [|c s]; [reflexivity|]. simpl. rewrite is_at_head.
  intros H. apply orb_false_elim in H. apply H.
Qed.

(** A byte found at the head of [s], other than [b]: [s] has no [b] when
    [s[1:]] has none. *)
Lemma hasByte_after_head (s : string) (x b : ascii) :
  is_at s 0 x = true -> x <> b ->
  hasByte (sliceFrom s 1) b = false -> hasByte s b = false.
Proof.
  destruct s as [|c s]; [discriminate|].
  rewrite is_at_head. intros Hx Hne Hs.
  apply Ascii.eqb_eq in Hx. subst c.
  simpl. apply Ascii.eqb_neq in Hne. rewrite Hne. exact Hs.
Qed.

(** ** Transport addresses *)

(** What a successful [net.SplitHostPort] says about the port: it is what
    follows the last colon, and it has no colon and no bracket. *)
Lemma SplitHostPort_ok (hostport host port : string) :
  net.SplitHostPort hostport = (host, port, None) ->
  0 <= last hostport ":" /\
  port = sliceFrom hostport (last hostport ":" + 1) /\
  hasByte port ":" = false /\
  hasByte port "[" = false /\
  hasByte port "]" = false.
Proof.
  unfold net.SplitHostPort, net.addrErr.
  destruct (last hostport ":" <? 0) eqn:Hi; [discriminate|].
  apply Z.ltb_ge in Hi.
  set (i := last hostport ":") in *.
  assert (Hcolon : hasByte (sliceFrom hostport (i + 1)) ":" = false).
  { pose proof (lastFrom_drop hostport ":" 0 ltac:(lia) Hi) as H.
    unfold sliceFrom. fold (last hostport ":") in H. fold i in H.
    replace (i - 0 + 1) with (i + 1) in H by lia. exact H. }
  assert (Hfin : forall j k h,
             0 <= j <= i + 1 -> 0 <= k <= i + 1 ->
             (if 0 <=? IndexByteString (sliceFrom hostport j) "["
              then (EmptyString, EmptyString,
                    Some (AddrError "unexpected '[' in address" hostport))
              else if 0 <=? IndexByteString (sliceFrom hostport k) "]"
                   then (EmptyString, EmptyString,
                         Some (AddrError "unexpected ']' in address" hostport))
                   else (h, sliceFrom hostport (i + 1), None))
             = (host, port, None) ->
             0 <= i /\ port = sliceFrom hostport (i + 1) /\
             hasByte port ":" = false /\ hasByte port "[" = false /\
             hasByte port "]" = false).
  { intros j k h Hj Hk.
    rewrite !IndexByteString_hasByte.
    destruct (hasByte (sliceFrom hostport j) "[") eqn:Hl; [discriminate|].
    destruct (hasByte (sliceFrom hostport k) "]") eqn:Hr; [discriminate|].
    intros H. injection H as _ <-.
    split; [exact Hi|]. split; [reflexivity|]. split; [exact Hcolon|].
    unfold sliceFrom in *.
    split.
    - apply (hasByte_drop_le (Z.to_nat j)); [lia | exact Hl].
    - apply (hasByte_drop_le (Z.to_nat k)); [lia | exact Hr]. }
  destruct (is_at hostport 0 "[").
  - destruct (IndexByteString hostport "]" <? 0); [discriminate|].
    destruct (IndexByteString hostport "]" + 1 =? len hostport); [discriminate|].
    destruct (IndexByteString hostport "]" + 1 =? i) eqn:He.
    + apply Z.eqb_eq in He. apply Hfin; lia.
    + destruct (is_at hostport (IndexByteString hostport "]" + 1) ":");
        discriminate.
  - destruct (0 <=? IndexByteString (sliceTo hostport i) ":"); [discriminate|].
    apply Hfin; lia.
Qed.

Lemma sliceFrom_app (a t : string) : sliceFrom (a ++ t) (len a) = t.
Proof. unfold sliceFrom, len. rewrite Nat2Z.id. apply drop_app_length. Qed.

Lemma sliceTo_app (a t : string) : sliceTo (a ++ t) (len a) = a.
Proof. unfold sliceTo, len. rewrite Nat2Z.id. apply take_app_length. Qed.

Lemma sliceFrom_at (s a t : string) (n : Z) :
  s = (a ++ t)%string -> n = len a -> sliceFrom s n = t.
Proof. intros -> ->. apply sliceFrom_app. Qed.

(** [net.SplitHostPort] undoes [net.JoinHostPort] when the host has no
    bracket and the port neither a bracket nor a colon. *)
Lemma SplitHostPort_JoinHostPort (host port : string) :
  hasByte host "[" = false -> hasByte host "]" = false ->
  hasByte port ":" = false -> hasByte port "[" = false ->
  hasByte port "]" = false ->
  net.SplitHostPort (net.JoinHostPort host port) = (host, port, None).
Proof.
  intros Hhl Hhr Hpc Hpl Hpr.
  pose proof (len_nonneg host) as Hlen.
  unfold net.JoinHostPort. rewrite IndexByteString_hasByte.
  destruct (hasByte host ":") eqn:Hhc.
  - (* "[host]:port" *)
    unfold net.SplitHostPort.
    assert (Hi : last ("[" ++ host ++ "]:" ++ port) ":" = len host + 2).
    { change ("[" ++ host ++ "]:" ++ port)%string
        with (String "[" (host ++ String "]" (String ":" port))).
      replace (String "[" (host ++ String "]" (String ":" port)))
        with ((String "[" (host ++ "]")) ++ String ":" port)%string
        by (simpl; rewrite <- append_assoc; reflexivity).
      unfold last. rewrite lastFrom_app by (lia || assumption).
      rewrite len_String, len_app. unfold len at 2. simpl. lia. }
    assert (Hf : IndexByteString ("[" ++ host ++ "]:" ++ port) "]" = len host + 1).
    { change ("[" ++ host ++ "]:" ++ port)%string
        with ((String "[" host) ++ String "]" (String ":" port))%string.
      unfold IndexByteString. rewrite indexFrom_app by (simpl; exact Hhr).
      rewrite len_String. lia. }
    rewrite Hi, Hf.
    destruct (len host + 2 <? 0) eqn:E1; [lia|].
    change (is_at ("[" ++ host ++ "]:" ++ port) 0 "[") with true. cbv iota.
    destruct (len host + 1 <? 0) eqn:E2; [lia|].
    assert (Hl : len ("[" ++ host ++ "]:" ++ port) = len host + 3 + len port).
    { change ("[" ++ host ++ "]:" ++ port)%string
        with (String "[" (host ++ String "]" (String ":" port))).
      rewrite len_String, len_app, !len_String. lia. }
    rewrite Hl. pose proof (len_nonneg port).
    destruct (len host + 1 + 1 =? len host + 3 + len port) eqn:E3; [lia|].
    destruct (len host + 1 + 1 =? len host + 2) eqn:E4; [|lia].
    assert (Hs1 : sliceFrom ("[" ++ host ++ "]:" ++ port) 1
                  = (host ++ "]:" ++ port)%string) by reflexivity.
    assert (Hs2 : sliceFrom ("[" ++ host ++ "]:" ++ port) (len host + 1 + 1)
                  = String ":" port).
    { apply (sliceFrom_at _ ("[" ++ host ++ "]")).
      - simpl. f_equal. rewrite <- append_assoc. reflexivity.
      - unfold len. simpl. rewrite length_append. simpl. lia. }
    assert (Hs3 : sliceFrom ("[" ++ host ++ "]:" ++ port) (len host + 2 + 1) = port).
    { apply (sliceFrom_at _ ("[" ++ host ++ "]:")).
      - simpl. f_equal. rewrite <- append_assoc. reflexivity.
      - unfold len. simpl. rewrite length_append. simpl. lia. }
    assert (Hs4 : slice ("[" ++ host ++ "]:" ++ port) 1 (len host + 1) = host).
    { unfold slice. change (Z.to_nat 1) with 1%nat.
      change (drop 1 ("[" ++ host ++ "]:" ++ port))
        with (host ++ "]:" ++ port)%string.
      replace (Z.to_nat (len host + 1 - 1)) with (String.length host)
        by (unfold len; lia).
      apply take_app_length. }
    rewrite Hs1, Hs2, Hs3, Hs4, !IndexByteString_hasByte.
    rewrite hasByte_app, Hhl. simpl hasByte. rewrite Hpl, Hpr. reflexivity.
  - (* "host:port" *)
    unfold net.SplitHostPort.
    change (host ++ ":" ++ port)%string with (host ++ String ":" port)%string.
    assert (Hi : last (host ++ String ":" port) ":" = len host).
    { unfold last. rewrite lastFrom_app by (lia || assumption). lia. }
    rewrite Hi.
    destruct (len host <? 0) eqn:E1; [lia|].
    assert (Hb : is_at (host ++ String ":" port) 0 "[" = false).
    { apply is_at_0_nohead. rewrite hasByte_app, Hhl. simpl. exact Hpl. }
    rewrite Hb, sliceTo_app, IndexByteString_hasByte, Hhc.
    change (sliceFrom (host ++ String ":" port) 0) with (host ++ String ":" port)%string.
    rewrite !IndexByteString_hasByte, !hasByte_app, Hhl, Hhr.
    simpl hasByte. rewrite Hpl, Hpr. simpl.
    replace (host ++ String ":" port)%string with ((host ++ ":") ++ port)%string
      by (rewrite <- append_assoc; reflexivity).
    replace (len host + 1) with (len (host ++ ":"))
      by (rewrite len_app; unfold len at 2; simpl; lia).
    rewrite sliceFrom_app. reflexivity.
Qed.

(** ** IP literals

    A string that [net.ParseIP] accepts is made of hexadecimal digits,
    dots and colons: no other byte [b] occurs in it. *)

Section LiteralBytes.

Variable b : ascii.
Hypothesis b_not_hex : net.hexval b = None.
Hypothesis b_not_dot : "."%char <> b.
Hypothesis b_not_colon : ":"%char <> b.

Lemma hex_not_b (x : ascii) (v : Z) :
  net.hexval x = Some v -> Ascii.eqb x b = false.
Proof.
  intros Hx. apply Ascii.eqb_neq. intros ->. rewrite b_not_hex in Hx.
  discriminate Hx.
Qed.

Lemma digit_not_b (x : ascii) : net.is_digit x = true -> Ascii.eqb x b = false.
Proof.
  intros Hd. apply (hex_not_b x (code x - code "0")).
  unfold net.hexval. unfold net.is_digit in Hd. rewrite Hd. reflexivity.
Qed.

Lemma drop_step (c i : Z) (x : ascii) (s : string) :
  i + 1 <= c ->
  drop (Z.to_nat (c - i)) (String x s) = drop (Z.to_nat (c - (i + 1))) s.
Proof.
  intros H. replace (Z.to_nat (c - i)) with (S (Z.to_nat (c - (i + 1)))) by lia.
  reflexivity.
Qed.

Lemma xtoi_loop_bytes (s : string) (n i n' c : Z) :
  net.xtoi_loop s n i = (n', c, true) ->
  i <= c /\
  (hasByte (drop (Z.to_nat (c - i)) s) b = false -> hasByte s b = false).
Proof.
  revert n i. induction s as [|x s IH]; intros n i; simpl net.xtoi_loop.
  - destruct (i =? 0); intros H; inversion H; subst.
    split; [lia|]. intros _. reflexivity.
  - destruct (net.hexval x) as [v|] eqn:Hx.
    + destruct (net.big <=? n * 16 + v); [discriminate|].
      intros H. destruct (IH _ _ H) as [Hle Hs].
      split; [lia|]. rewrite drop_step by lia.
      intros Hd. simpl. rewrite (hex_not_b _ _ Hx). apply Hs, Hd.
    + destruct (i =? 0); intros H; inversion H; subst.
      split; [lia|]. rewrite Z.sub_diag. intros Hd. exact Hd.
Qed.

Lemma dtoi_loop_bytes (s : string) (n i n' c : Z) :
  net.dtoi_loop s n i = (n', c, true) ->
  i <= c /\
  (hasByte (drop (Z.to_nat (c - i)) s) b = false -> hasByte s b = false).
Proof.
  revert n i. induction s as [|x s IH]; intros n i; simpl net.dtoi_loop.
  - destruct (i =? 0); intros H; inversion H; subst.
    split; [lia|]. intros _. reflexivity.
  - destruct (net.is_digit x) eqn:Hx.
    + destruct (net.big <=? n * 10 + (code x - code "0")); [discriminate|].
      intros H. destruct (IH _ _ H) as [Hle Hs].
      split; [lia|]. rewrite drop_step by lia.
      intros Hd. simpl. rewrite (digit_not_b _ Hx). apply Hs, Hd.
    + destruct (i =? 0); intros H; inversion H; subst.
      split; [lia|]. rewrite Z.sub_diag. intros Hd. exact Hd.
Qed.

Lemma xtoi_bytes (s : string) (n c : Z) :
  net.xtoi s = (n, c, true) ->
  hasByte (sliceFrom s c) b = false -> hasByte s b = false.
Proof.
  unfold net.xtoi, sliceFrom. intros H.
  destruct (xtoi_loop_bytes _ _ _ _ _ H) as [_ Hs].
  rewrite Z.sub_0_r in Hs. exact Hs.
Qed.

Lemma dtoi_bytes (s : string) (n c : Z) :
  net.dtoi s = (n, c, true) ->
  hasByte (sliceFrom s c) b = false -> hasByte s b = false.
Proof.
  unfold net.dtoi, sliceFrom. intros H.
  destruct (dtoi_loop_bytes _ _ _ _ _ H) as [_ Hs].
  rewrite Z.sub_0_r in Hs. exact Hs.
Qed.

Lemma parseIPv4_loop_bytes (k : nat) (i : Z) (s : string) (p : list Z)
  (s' : string) (p' : list Z) :
  net.parseIPv4_loop k i s p = Some (s', p') ->
  hasByte s' b = false -> hasByte s b = false.
Proof.
  revert i s p. induction k as [|k IH]; intros i s p; simpl net.parseIPv4_loop.
  - intros H. inversion H; subst. trivial.
  - destruct (len s =? 0); [discriminate|].
    assert (Hstep : forall s1,
               match net.dtoi s1 with
               | (n, c, ok) =>
                   if negb ok || (255 <? n) then None
                   else if (1 <? c) && is_at s1 0 "0" then None
                        else net.parseIPv4_loop k (i + 1) (sliceFrom s1 c)
                               (net.set p i (net.byte n))
               end = Some (s', p') ->
               hasByte s' b = false -> hasByte s1 b = false).
    { intros s1. destruct (net.dtoi s1) as [[n c] ok] eqn:Hd.
      destruct ok; [|discriminate]. simpl negb. simpl orb.
      destruct (255 <? n); [discriminate|].
      destruct ((1 <? c) && is_at s1 0 "0"); [discriminate|].
      intros H Hs'. apply (dtoi_bytes _ _ _ Hd). apply (IH _ _ _ H Hs'). }
    destruct (0 <? i).
    + destruct (is_at s 0 ".") eqn:Hdot; [|discriminate].
      intros H Hs'. apply (hasByte_after_head s "."); [exact Hdot | exact b_not_dot|].
      apply (Hstep _ H Hs').
    + apply Hstep.
Qed.

Lemma parseIPv4_bytes (s : string) (ip : net.IP) :
  net.parseIPv4 s = Some ip -> hasByte s b = false.
Proof.
  unfold net.parseIPv4.
  destruct (net.parseIPv4_loop 4 0 s [0; 0; 0; 0]) as [[s' p']|] eqn:Hl;
    [|discriminate].
  destruct (len s' =? 0) eqn:He; [|discriminate].
  intros _. apply Z.eqb_eq, len_zero in He. subst s'.
  apply (parseIPv4_loop_bytes _ _ _ _ _ _ Hl). reflexivity.
Qed.

Lemma parseIPv6_body_bytes (ip : list Z) (ellipsis i : Z) (s : string) :
  match net.parseIPv6_body ip ellipsis i s with
  | net.ReturnNil => True
  | net.Break _ _ _ s' | net.Continue _ _ _ s' =>
      hasByte s' b = false -> hasByte s b = false
  end.
Proof.
  unfold net.parseIPv6_body.
  destruct (net.xtoi s) as [[n c] ok] eqn:Hx.
  destruct ok; [|exact I]. simpl negb. simpl orb.
  destruct (65535 <? n); [exact I|].
  destruct ((c <? len s) && is_at s c ".").
  - destruct ((ellipsis <? 0) && negb (i =? net.IPv6len - net.IPv4len));
      [exact I|].
    destruct (net.IPv6len <? i + net.IPv4len); [exact I|].
    destruct (net.parseIPv4 s) as [ip4|] eqn:H4; [|exact I].
    intros _. apply (parseIPv4_bytes _ _ H4).
  - pose proof (xtoi_bytes _ _ _ Hx) as Hs.
    destruct (len (sliceFrom s c) =? 0); [exact Hs|].
    destruct (is_at (sliceFrom s c) 0 ":") eqn:Hc1; [|exact I].
    simpl negb. simpl orb.
    destruct (len (sliceFrom s c) =? 1); [exact I|].
    pose proof (hasByte_after_head _ ":" b Hc1 b_not_colon) as Hs1.
    destruct (is_at (sliceFrom (sliceFrom s c) 1) 0 ":") eqn:Hc2.
    + destruct (0 <=? ellipsis); [exact I|].
      pose proof (hasByte_after_head _ ":" b Hc2 b_not_colon) as Hs2.
      destruct (len (sliceFrom (sliceFrom (sliceFrom s c) 1) 1) =? 0); auto.
    + auto.
Qed.

Lemma parseIPv6_loop_bytes (fuel : nat) (ip : list Z) (ellipsis i : Z)
  (s : string) (ip' : list Z) (ellipsis' i' : Z) (s' : string) :
  net.parseIPv6_loop fuel ip ellipsis i s = Some (ip', ellipsis', i', s') ->
  hasByte s' b = false -> hasByte s b = false.
Proof.
  revert ip ellipsis i s.
  induction fuel as [|fuel IH]; intros ip ellipsis i s; simpl net.parseIPv6_loop.
  - destruct (negb (i <? net.IPv6len)); [|discriminate].
    intros H. inversion H; subst. trivial.
  - destruct (negb (i <? net.IPv6len)).
    { intros H. inversion H; subst. trivial. }
    pose proof (parseIPv6_body_bytes ip ellipsis i s) as Hb.
    destruct (net.parseIPv6_body ip ellipsis i s) as [|ip1 e1 i1 s1|ip1 e1 i1 s1];
      [discriminate| |].
    + intros H. inversion H; subst. exact Hb.
    + intros H Hs'. apply Hb. apply (IH _ _ _ _ H Hs').
Qed.

Lemma parseIPv6_bytes (s : string) (ip : net.IP) :
  net.parseIPv6 s = Some ip -> hasByte s b = false.
Proof.
  unfold net.parseIPv6.
  set (lead := (2 <=? len s) && is_at s 0 ":" && is_at s 1 ":").
  assert (Hlead : lead = true ->
                  hasByte (sliceFrom s 2) b = false -> hasByte s b = false).
  { unfold lead. intros Hl. apply andb_prop in Hl. destruct Hl as [Hl H1].
    apply andb_prop in Hl. destruct Hl as [_ H0].
    destruct s as [|x [|y s]]; try discriminate.
    rewrite is_at_head in H0. apply Ascii.eqb_eq in H0.
    change (is_at (String x (String y s)) 1 ":") with (Ascii.eqb y ":") in H1.
    apply Ascii.eqb_eq in H1. subst x y.
    change (sliceFrom (String ":" (String ":" s)) 2) with s.
    intros Hs.
    apply (hasByte_after_head _ ":"); [reflexivity | exact b_not_colon|].
    apply (hasByte_after_head _ ":"); [reflexivity | exact b_not_colon|].
    exact Hs. }
  assert (Hrest : hasByte (if lead then sliceFrom s 2 else s) b = false ->
                  hasByte s b = false).
  { destruct lead; [apply Hlead; reflexivity | trivial]. }
  destruct (lead && (len (if lead then sliceFrom s 2 else s) =? 0)) eqn:Honly.
  - intros _. apply Hrest. apply andb_prop in Honly. destruct Honly as [_ He].
    apply Z.eqb_eq, len_zero in He. rewrite He. reflexivity.
  - destruct (net.parseIPv6_loop 8 net.zeros16 (if lead then 0 else -1) 0
                (if lead then sliceFrom s 2 else s))
      as [[[[ip' ell'] i'] s']|] eqn:Hl; [|discriminate].
    destruct (len s' =? 0) eqn:He; [|discriminate].
    intros _. apply Hrest.
    apply Z.eqb_eq, len_zero in He. subst s'.
    apply (parseIPv6_loop_bytes _ _ _ _ _ _ _ _ _ Hl). reflexivity.
Qed.

Lemma ParseIP_loop_bytes (s rest : string) (ip : net.IP) :
  net.ParseIP_loop s rest = Some ip -> hasByte s b = false.
Proof.
  induction rest as [|x rest IH]; simpl; [discriminate|].
  destruct (Ascii.eqb x "."); [apply parseIPv4_bytes|].
  destruct (Ascii.eqb x ":"); [apply parseIPv6_bytes | exact IH].
Qed.

Lemma ParseIP_bytes (s : string) (ip : net.IP) :
  net.ParseIP s = Some ip -> hasByte s b = false.
Proof. apply ParseIP_loop_bytes. Qed.

End LiteralBytes.

(** An IP literal has no bracket. *)
Lemma ParseIP_no_bracket (s : string) (ip : net.IP) :
  net.ParseIP s = Some ip ->
  hasByte s "[" = false /\ hasByte s "]" = false.
Proof.
  intros H. split.
  - apply (ParseIP_bytes "[" eq_refl ltac:(discriminate) ltac:(discriminate) _ _ H).
  - apply (ParseIP_bytes "]" eq_refl ltac:(discriminate) ltac:(discriminate) _ _ H).
Qed.

(** The main loop of [parseIPv6] never runs out of iterations: an
    iteration that continues has added 2 to [i], and more fuel than
    [(IPv6len - i) / 2] changes nothing. *)
Lemma parseIPv6_body_continue (ip : list Z) (ellipsis i : Z) (s : string)
  (ip' : list Z) (ellipsis' i' : Z) (s' : string) :
  net.parseIPv6_body ip ellipsis i s = net.Continue ip' ellipsis' i' s' ->
  i' = i + 2.
Proof.
  unfold net.parseIPv6_body.
  destruct (net.xtoi s) as [[n c] ok].
  repeat match goal with
         | |- context [if ?c then _ else _] => destruct c
         | |- context [match net.parseIPv4 ?x with Some _ => _ | None => _ end] =>
             destruct (net.parseIPv4 x)
         end;
    intros H; inversion H; reflexivity.
Qed.

Lemma parseIPv6_loop_fuel (fuel : nat) (ip : list Z) (ellipsis i : Z) (s : string) :
  net.IPv6len - i <= 2 * Z.of_nat fuel ->
  net.parseIPv6_loop (S fuel) ip ellipsis i s
  = net.parseIPv6_loop fuel ip ellipsis i s.
Proof.
  revert ip ellipsis i s.
  induction fuel as [|fuel IH]; intros ip ellipsis i s Hi.
  - simpl. destruct (i <? net.IPv6len) eqn:E; [|reflexivity].
    apply Z.ltb_lt in E. lia.
  - change (net.parseIPv6_loop (S (S fuel)) ip ellipsis i s)
      with (if negb (i <? net.IPv6len) then Some (ip, ellipsis, i, s)
            else match net.parseIPv6_body ip ellipsis i s with
                 | net.ReturnNil => None
                 | net.Break ip ellipsis i s => Some (ip, ellipsis, i, s)
                 | net.Continue ip ellipsis i s =>
                     net.parseIPv6_loop (S fuel) ip ellipsis i s
                 end).
    change (net.parseIPv6_loop (S fuel) ip ellipsis i s)
      with (if negb (i <? net.IPv6len) then Some (ip, ellipsis, i, s)
            else match net.parseIPv6_body ip ellipsis i s with
                 | net.ReturnNil => None
                 | net.Break ip ellipsis i s => Some (ip, ellipsis, i, s)
                 | net.Continue ip ellipsis i s =>
                     net.parseIPv6_loop fuel ip ellipsis i s
                 end).
    destruct (negb (i <? net.IPv6len)); [reflexivity|].
    destruct (net.parseIPv6_body ip ellipsis i s) as [|? ? ? ?|ip1 e1 i1 s1] eqn:Hb;
      try reflexivity.
    apply parseIPv6_body_continue in Hb. apply IH. lia.
Qed.

Lemma parseIPv6_loop_enough (fuel : nat) (ip : list Z) (ellipsis : Z) (s : string) :
  (8 <= fuel)%nat ->
  net.parseIPv6_loop fuel ip ellipsis 0 s = net.parseIPv6_loop 8 ip ellipsis 0 s.
Proof.
  induction 1 as [|fuel Hle IH]; [reflexivity|].
  rewrite parseIPv6_loop_fuel; [exact IH|]. unfold net.IPv6len. lia.
Qed.

(** The address made by [net.JoinHostPort] ends with a colon and the
    port. *)
Lemma JoinHostPort_shape (host port : string) :
  exists front, net.JoinHostPort host port = (front ++ String ":" port)%string.
Proof.
  unfold net.JoinHostPort.
  destruct (0 <=? IndexByteString host ":").
  - exists ("[" ++ host ++ "]")%string.
    simpl. f_equal. rewrite <- append_assoc. reflexivity.
  - exists host. reflexivity.
Qed.

(** Whatever the host, when the joined address splits again, the port
    that comes out is the port that went in. *)
Lemma SplitHostPort_JoinHostPort_port (host port host' port' : string) :
  hasByte port ":" = false ->
  net.SplitHostPort (net.JoinHostPort host port) = (host', port', None) ->
  port' = port.
Proof.
  intros Hpc Hs.
  destruct (SplitHostPort_ok _ _ _ Hs) as [_ [-> _]].
  destruct (JoinHostPort_shape host port) as [front ->].
  unfold last. rewrite lastFrom_app by (lia || exact Hpc).
  apply (sliceFrom_at _ (front ++ ":")).
  - rewrite <- append_assoc. reflexivity.
  - rewrite len_app. unfold len at 3. simpl. lia.
Qed.

(** The rewritten address of an IP literal and a port that came out of
    [net.SplitHostPort] splits into that literal and that port. *)
Lemma SplitHostPort_rewritten (addr orighost port newIP : string) (parsed : net.IP) :
  net.SplitHostPort addr = (orighost, port, None) ->
  net.ParseIP newIP = Some parsed ->
  net.SplitHostPort (net.JoinHostPort newIP port) = (newIP, port, None).
Proof.
  intros Hs Hp.
  destruct (SplitHostPort_ok _ _ _ Hs) as [_ [_ [Hc [Hl Hr]]]].
  destruct (ParseIP_no_bracket _ _ Hp) as [Hhl Hhr].
  apply SplitHostPort_JoinHostPort; assumption.
Qed.

(** [net.ParseIP] and [net.SplitHostPort] on entries of the tables of Go's
    own tests. *)
Example ParseIP_v4 : net.ParseIP "127.0.1.2" = Some (net.IPv4 127 0 1 2).
Proof. reflexivity. Qed.

Example ParseIP_v4_in_v6 : net.ParseIP "::ffff:7f01:0203" = Some (net.IPv4 127 1 2 3).
Proof. reflexivity. Qed.

Example ParseIP_v6 :
  net.ParseIP "2001:4860:0:2001::68"
  = Some [0x20; 0x01; 0x48; 0x60; 0; 0; 0x20; 0x01; 0; 0; 0; 0; 0; 0; 0; 0x68].
Proof. reflexivity. Qed.

Example ParseIP_rejects :
  map net.ParseIP
    ["-0.0.0.0"; "127.0.0.256"; "abc"; "123:"; "fe80::1%lo0"; "";
     "a1:a2:a3:a4::b1:b2:b3:b4"; "127.001.002.003"; "1.2..4"; "0123.0.0.1"]
  = repeat None 10.
Proof. reflexivity. Qed.

Example SplitHostPort_ok_v6 : net.SplitHostPort "[::1]:http" = ("::1", "http", None).
Proof. reflexivity. Qed.

Example SplitHostPort_colons :
  net.SplitHostPort "::1" = ("", "", Some (AddrError net.tooManyColons "::1")).
Proof. reflexivity. Qed.

Example SplitHostPort_bracket :
  net.SplitHostPort "foo[bar]:baz"
  = ("", "", Some (AddrError "unexpected '[' in address" "foo[bar]:baz")).
Proof. reflexivity. Qed.

(** ** The matcher *)

Lemma matches_decidable (wantV4 : bool) (ip : string) :
  matches wantV4 ip \/ ~ matches wantV4 ip.
Proof.
  unfold matches.
  destruct (net.ParseIP ip) as [parsed|] eqn:Hp.
  - destruct (Bool.bool_dec (isV4 parsed) wantV4) as [Heq|Hne].
    + left. exists parsed. split; [reflexivity | exact Heq].
    + right. intros [q [Hq Hf]]. inversion Hq; subst q. contradiction.
  - right. intros [q [Hq _]]. discriminate Hq.
Qed.

Lemma scan_cons_match (ip : string) (ips : list string) (wantV4 : bool) :
  matches wantV4 ip -> scan (ip :: ips) wantV4 = ip.
Proof.
  intros [parsed [Hp Hf]]. simpl. rewrite Hp, Hf.
  rewrite Bool.eqb_reflx. reflexivity.
Qed.

Lemma scan_cons_skip (ip : string) (ips : list string) (wantV4 : bool) :
  ~ matches wantV4 ip -> scan (ip :: ips) wantV4 = scan ips wantV4.
Proof.
  intros Hn. simpl.
  destruct (net.ParseIP ip) as [parsed|] eqn:Hp; [|reflexivity].
  destruct (Bool.eqb (isV4 parsed) wantV4) eqn:He; [|reflexivity].
  exfalso. apply Hn. exists parsed. split; [exact Hp|].
  apply Bool.eqb_prop. exact He.
Qed.

(** The empty string is no IP literal. *)
Lemma ParseIP_empty : net.ParseIP EmptyString = None.
Proof. reflexivity. Qed.

Lemma matches_nonempty (wantV4 : bool) (ip : string) :
  matches wantV4 ip -> ip <> EmptyString.
Proof.
  intros [parsed [Hp _]] ->. rewrite ParseIP_empty in Hp. discriminate Hp.
Qed.

Lemma scan_correct (ips : list string) (wantV4 : bool) :
  scan_result wantV4 ips (scan ips wantV4).
Proof.
  induction ips as [|ip ips IH].
  - apply scan_nothing; [constructor | reflexivity].
  - destruct (matches_decidable wantV4 ip) as [Hm|Hn].
    + rewrite (scan_cons_match _ ips _ Hm).
      apply (scan_found _ _ _ [] ips); [reflexivity | constructor | exact Hm].
    + rewrite (scan_cons_skip _ ips _ Hn).
      destruct IH as [before after Heq Hb Hm | Hall Hr].
      * apply (scan_found _ _ _ (ip :: before) after).
        -- simpl. f_equal. exact Heq.
        -- constructor; assumption.
        -- exact Hm.
      * apply scan_nothing; [constructor; assumption | exact Hr].
Qed.

Lemma scan_some (ips : list string) (wantV4 : bool) :
  (exists e, In e ips /\ matches wantV4 e) ->
  exists before after,
    ips = (before ++ scan ips wantV4 :: after)%list /\
    Forall (fun x => ~ matches wantV4 x) before /\
    matches wantV4 (scan ips wantV4).
Proof.
  intros [e [Hin Hm]].
  destruct (scan_correct ips wantV4) as [before after Heq Hb Hr | Hall _].
  - exists before, after. auto.
  - exfalso. rewrite Forall_forall in Hall.
    apply (Hall e); [apply list_elem_of_In; exact Hin | exact Hm].
Qed.

Lemma scan_none (ips : list string) (wantV4 : bool) :
  (forall e, In e ips -> ~ matches wantV4 e) ->
  scan ips wantV4 = EmptyString.
Proof.
  intros Hno.
  destruct (scan_correct ips wantV4) as [before after Heq _ Hr | _ Hr].
  - exfalso. apply (Hno (scan ips wantV4)); [|exact Hr].
    remember (scan ips wantV4) as r eqn:Er. clear Er.
    subst ips. apply in_or_app. right. left. reflexivity.
  - exact Hr.
Qed.

Lemma not_matches_unparseable (wantV4 : bool) (ip : string) :
  net.ParseIP ip = None -> ~ matches wantV4 ip.
Proof. intros Hn [parsed [Hp _]]. rewrite Hn in Hp. discriminate Hp. Qed.


(** C6: [scan] returns the first entry of the list, in list order, that
    parses as an address of the family asked for: every entry before it
    fails to parse or is of the other family.  An entry that fails to
    parse is passed over.  When no entry matches, the result is the empty
    string.  The result is a function of the list and the flag. *)
Theorem scan_first_match (ips : list string) (wantV4 : bool) :
  ((exists before after,
       ips = (before ++ scan ips wantV4 :: after)%list /\
       Forall (fun x => ~ matches wantV4 x) before /\
       matches wantV4 (scan ips wantV4))
   \/ (Forall (fun x => ~ matches wantV4 x) ips /\
       scan ips wantV4 = EmptyString)) /\
  (forall ip, net.ParseIP ip = None ->
              scan (ip :: ips) wantV4 = scan ips wantV4) /\
  (forall ips' wantV4',
      ips' = ips -> wantV4' = wantV4 -> scan ips' wantV4' = scan ips wantV4).
Proof.
  split; [|split].
  - destruct (scan_correct ips wantV4) as [before after Heq Hb Hm | Hall Hr].
    + left. exists before, after. auto.
    + right. auto.
  - intros ip Hn. apply scan_cons_skip, not_matches_unparseable, Hn.
  - intros ips' wantV4' -> ->. reflexivity.
Qed.

Lemma scan_first_match_witness :
  ((exists before after,
       ["bad"; "10.0.0.1"; "10.0.0.2"]
         = (before ++ scan ["bad"; "10.0.0.1"; "10.0.0.2"] true :: after)%list /\
       Forall (fun x => ~ matches true x) before /\
       matches true (scan ["bad"; "10.0.0.1"; "10.0.0.2"] true))
   \/ (Forall (fun x => ~ matches true x) ["bad"; "10.0.0.1"; "10.0.0.2"] /\
       scan ["bad"; "10.0.0.1"; "10.0.0.2"] true = EmptyString)) /\
  (forall ip, net.ParseIP ip = None ->
              scan (ip :: ["bad"; "10.0.0.1"; "10.0.0.2"]) true
              = scan ["bad"; "10.0.0.1"; "10.0.0.2"] true) /\
  (forall ips' wantV4',
      ips' = ["bad"; "10.0.0.1"; "10.0.0.2"] -> wantV4' = true ->
      scan ips' wantV4' = scan ["bad"; "10.0.0.1"; "10.0.0.2"] true).
Proof.
  apply (scan_first_match ["bad"; "10.0.0.1"; "10.0.0.2"] true).
Defined.

(** The matcher on the lists of the specification. *)
Example scan_skips_bad : scan ["bad"; "10.0.0.1"; "10.0.0.2"] true = "10.0.0.1".
Proof. reflexivity. Qed.

Example scan_passes_v6 : scan ["2001:db8::1"; "10.0.0.1"] true = "10.0.0.1".
Proof. reflexivity. Qed.

Example scan_no_v4 : scan ["2001:db8::1"] true = EmptyString.
Proof. reflexivity. Qed.

Example scan_first_v6 : scan ["10.0.0.1"; "bad"; "fd00::53"; "::1"] false = "fd00::53".
Proof. reflexivity. Qed.

(** ** The rewriter *)

(** [net.SplitHostPort] fails with an [AddrError] about its argument,
    and then returns empty strings. *)
Lemma SplitHostPort_error (hostport host port : string) (e : error) :
  net.SplitHostPort hostport = (host, port, Some e) ->
  host = EmptyString /\ port = EmptyString /\
  exists why, e = AddrError why hostport.
Proof.
  unfold net.SplitHostPort, net.addrErr.
  repeat match goal with
         | |- context [if ?b then _ else _] => destruct b
         | |- context [match ?x with inl _ => _ | inr _ => _ end] => destruct x
         | |- context [let '(_, _) := ?x in _] => destruct x
         end;
    intros H; inversion H; subst; eauto.
Qed.

(** How [replaceIP] goes on a non-empty list once the address has been
    split and its host parsed. *)
Lemma replaceIP_parsed (addr ips0 : string) (rest : list string)
  (orighost port : string) (origip : net.IP) :
  net.SplitHostPort addr = (orighost, port, None) ->
  net.ParseIP orighost = Some origip ->
  replaceIP addr (ips0 :: rest) =
    (net.JoinHostPort
       (if String.eqb (scan (ips0 :: rest) (isV4 origip)) EmptyString
        then ips0 else scan (ips0 :: rest) (isV4 origip)) port, None).
Proof.
  intros Hs Hp. unfold replaceIP. rewrite Hs, Hp. reflexivity.
Qed.

(** The fallback of [replaceIP]: no entry of the family of the host. *)
Lemma replaceIP_no_match (addr ips0 : string) (rest : list string)
  (orighost port : string) (origip : net.IP) :
  net.SplitHostPort addr = (orighost, port, None) ->
  net.ParseIP orighost = Some origip ->
  (forall e, In e (ips0 :: rest) -> ~ matches (isV4 origip) e) ->
  replaceIP addr (ips0 :: rest) = (net.JoinHostPort ips0 port, None).
Proof.
  intros Hs Hp Hno.
  rewrite (replaceIP_parsed _ _ _ _ _ _ Hs Hp).
  rewrite (scan_none _ _ Hno). reflexivity.
Qed.

(** C1: when the address splits into a host that is an IP literal and a
    port, and the resolver list has an entry that parses as an address of
    the family of that host, [replaceIP] succeeds; the address it returns
    joins the first such entry of the list (every entry before it is
    unparseable or of the other family) with the original port, and
    splits again into exactly that entry and that port. *)
Theorem replaceIP_same_family (addr : string) (ips : list string)
  (orighost port : string) (origip : net.IP) :
  net.SplitHostPort addr = (orighost, port, None) ->
  net.ParseIP orighost = Some origip ->
  (exists e, In e ips /\ matches (isV4 origip) e) ->
  exists before newIP after newAddress,
    ips = (before ++ newIP :: after)%list /\
    Forall (fun x => ~ matches (isV4 origip) x) before /\
    matches (isV4 origip) newIP /\
    replaceIP addr ips = (newAddress, None) /\
    newAddress = net.JoinHostPort newIP port /\
    net.SplitHostPort newAddress = (newIP, port, None).
Proof.
  intros Hs Hp Hex.
  destruct (scan_some ips (isV4 origip) Hex) as [before [after [Heq [Hb Hm]]]].
  exists before, (scan ips (isV4 origip)), after,
    (net.JoinHostPort (scan ips (isV4 origip)) port).
  split; [exact Heq|]. split; [exact Hb|]. split; [exact Hm|].
  split; [|split; [reflexivity|]].
  - destruct ips as [|ips0 rest].
    + destruct Hex as [e [[] _]].
    + rewrite (replaceIP_parsed _ _ _ _ _ _ Hs Hp).
      apply matches_nonempty in Hm. apply String.eqb_neq in Hm.
      rewrite Hm. reflexivity.
  - destruct Hm as [parsed [Hparsed _]].
    apply (SplitHostPort_rewritten _ _ _ _ _ Hs Hparsed).
Qed.

Lemma replaceIP_same_family_witness :
  exists before newIP after newAddress,
    ["bad"; "2001:db8::1"; "10.0.0.1"; "10.0.0.2"]
      = (before ++ newIP :: after)%list /\
    Forall (fun x => ~ matches true x) before /\
    matches true newIP /\
    replaceIP "8.8.8.8:53" ["bad"; "2001:db8::1"; "10.0.0.1"; "10.0.0.2"]
      = (newAddress, None) /\
    newAddress = net.JoinHostPort newIP "53" /\
    net.SplitHostPort newAddress = (newIP, "53", None).
Proof.
  apply (replaceIP_same_family "8.8.8.8:53"
           ["bad"; "2001:db8::1"; "10.0.0.1"; "10.0.0.2"]
           "8.8.8.8" "53" (net.IPv4 8 8 8 8)).
  - reflexivity.
  - reflexivity.
  - exists "10.0.0.2". split.
    + simpl. auto.
    + exists (net.IPv4 10 0 0 2). split; reflexivity.
Defined.

(** C2: when the address is well formed and the non-empty resolver list
    has no entry that parses as an address of the family of the host,
    [replaceIP] succeeds and returns the first entry of the list, whatever
    it is, joined with the original port.  When the returned address is
    split again, the port that comes out is the original port, and the
    host is the first entry when that entry is an IP literal. *)
Theorem replaceIP_other_family (addr : string) (ips : list string)
  (orighost port : string) (origip : net.IP) :
  net.SplitHostPort addr = (orighost, port, None) ->
  net.ParseIP orighost = Some origip ->
  ips <> [] ->
  (forall e, In e ips -> ~ matches (isV4 origip) e) ->
  exists ips0 rest newAddress,
    ips = ips0 :: rest /\
    replaceIP addr ips = (newAddress, None) /\
    newAddress = net.JoinHostPort ips0 port /\
    (forall host' port',
        net.SplitHostPort newAddress = (host', port', None) -> port' = port) /\
    (forall parsed,
        net.ParseIP ips0 = Some parsed ->
        net.SplitHostPort newAddress = (ips0, port, None)).
Proof.
  intros Hs Hp Hne Hno.
  destruct ips as [|ips0 rest]; [contradiction|].
  exists ips0, rest, (net.JoinHostPort ips0 port).
  split; [reflexivity|].
  split; [apply (replaceIP_no_match _ _ _ _ _ _ Hs Hp Hno)|].
  split; [reflexivity|].
  destruct (SplitHostPort_ok _ _ _ Hs) as [_ [_ [Hc _]]].
  split.
  - intros host' port'. apply SplitHostPort_JoinHostPort_port. exact Hc.
  - intros parsed Hparsed. apply (SplitHostPort_rewritten _ _ _ _ _ Hs Hparsed).
Qed.

Lemma not_matches_true_v6 : ~ matches true "2001:db8::1".
Proof. intros [parsed [Hp Hf]]. vm_compute in Hp. inversion Hp; subst. discriminate Hf. Qed.

Lemma replaceIP_other_family_witness :
  exists ips0 rest newAddress,
    ["2001:db8::1"; "bad"] = ips0 :: rest /\
    replaceIP "8.8.8.8:53" ["2001:db8::1"; "bad"] = (newAddress, None) /\
    newAddress = net.JoinHostPort ips0 "53" /\
    (forall host' port',
        net.SplitHostPort newAddress = (host', port', None) -> port' = "53") /\
    (forall parsed,
        net.ParseIP ips0 = Some parsed ->
        net.SplitHostPort newAddress = (ips0, "53", None)).
Proof.
  apply (replaceIP_other_family "8.8.8.8:53" ["2001:db8::1"; "bad"]
           "8.8.8.8" "53" (net.IPv4 8 8 8 8)).
  - reflexivity.
  - reflexivity.
  - discriminate.
  - intros e [<-|[<-|[]]].
    + exact not_matches_true_v6.
    + apply not_matches_unparseable. reflexivity.
Defined.

(** The end-to-end scenarios of the specification. *)
Example rewrite_same_family :
  replaceIP "8.8.8.8:53" (Split "10.0.0.1,10.0.0.2" ",") = ("10.0.0.1:53", None).
Proof. reflexivity. Qed.

Example rewrite_family_mismatch :
  replaceIP "8.8.8.8:53" (Split "2001:db8::1" ",") = ("[2001:db8::1]:53", None).
Proof. reflexivity. Qed.

Example rewrite_v6_target :
  replaceIP "[2001:4860:4860::8888]:53" (Split "10.0.0.1,fd00::53" ",")
  = ("[fd00::53]:53", None).
Proof. reflexivity. Qed.

(** [scan] returns the empty string or an entry of the list. *)
Lemma scan_in (ips : list string) (wantV4 : bool) :
  scan ips wantV4 = EmptyString \/ In (scan ips wantV4) ips.
Proof.
  induction ips as [|ip ips IH]; [left; reflexivity|].
  simpl scan.
  destruct (net.ParseIP ip) as [parsed|].
  - destruct (Bool.eqb (isV4 parsed) wantV4).
    + right. left. reflexivity.
    + destruct IH as [IH|IH]; [left; exact IH | right; right; exact IH].
  - destruct IH as [IH|IH]; [left; exact IH | right; right; exact IH].
Qed.

(** C3: whenever [replaceIP] succeeds, the input address splits into a
    host and a port, and the returned address is the join of an entry of
    the resolver list with that very port: the host comes from the list,
    the port is the one of the input.  When the returned address is split
    again, the port that comes out is the port of the input, and the host
    is the entry itself when the entry is an IP literal. *)
Theorem replaceIP_keeps_port (addr : string) (ips : list string)
  (newAddress : string) :
  replaceIP addr ips = (newAddress, None) ->
  exists orighost port newIP,
    net.SplitHostPort addr = (orighost, port, None) /\
    In newIP ips /\
    newAddress = net.JoinHostPort newIP port /\
    (forall host' port',
        net.SplitHostPort newAddress = (host', port', None) -> port' = port) /\
    (forall parsed,
        net.ParseIP newIP = Some parsed ->
        net.SplitHostPort newAddress = (newIP, port, None)).
Proof.
  intros H.
  destruct ips as [|ips0 rest]; [discriminate H|].
  destruct (net.SplitHostPort addr) as [[orighost port] [e|]] eqn:Hs;
    [unfold replaceIP in H; rewrite Hs in H; discriminate H|].
  destruct (net.ParseIP orighost) as [origip|] eqn:Hp;
    [|unfold replaceIP in H; rewrite Hs, Hp in H; discriminate H].
  rewrite (replaceIP_parsed _ _ _ _ _ _ Hs Hp) in H.
  pose proof (scan_in (ips0 :: rest) (isV4 origip)) as Hin.
  remember (scan (ips0 :: rest) (isV4 origip)) as r eqn:Er. clear Er.
  assert (Hj : newAddress =
               net.JoinHostPort (if String.eqb r EmptyString then ips0 else r) port)
    by congruence.
  destruct (SplitHostPort_ok _ _ _ Hs) as [_ [_ [Hc _]]].
  assert (Hgen : forall newIP,
             In newIP (ips0 :: rest) ->
             newAddress = net.JoinHostPort newIP port ->
             exists orighost0 port0 newIP0,
               (orighost, port, @None error) = (orighost0, port0, None) /\
               In newIP0 (ips0 :: rest) /\
               newAddress = net.JoinHostPort newIP0 port0 /\
               (forall host' port',
                   net.SplitHostPort newAddress = (host', port', None) ->
                   port' = port0) /\
               (forall parsed,
                   net.ParseIP newIP0 = Some parsed ->
                   net.SplitHostPort newAddress = (newIP0, port0, None))).
  { intros newIP Hi ->. exists orighost, port, newIP.
    split; [reflexivity|]. split; [exact Hi|]. split; [reflexivity|]. split.
    - intros host' port'. apply SplitHostPort_JoinHostPort_port. exact Hc.
    - intros parsed Hparsed. apply (SplitHostPort_rewritten _ _ _ _ _ Hs Hparsed). }
  destruct (String.eqb r EmptyString) eqn:He.
  - apply (Hgen ips0); [left; reflexivity | exact Hj].
  - apply (Hgen r); [|exact Hj].
    destruct Hin as [Hn|Hin]; [|exact Hin].
    apply String.eqb_neq in He. contradiction.
Qed.

Lemma replaceIP_keeps_port_witness :
  exists orighost port newIP,
    net.SplitHostPort "[2001:4860:4860::8888]:853" = (orighost, port, None) /\
    In newIP ["10.0.0.1"; "fd00::53"] /\
    "[fd00::53]:853" = net.JoinHostPort newIP port /\
    (forall host' port',
        net.SplitHostPort "[fd00::53]:853" = (host', port', None) ->
        port' = port) /\
    (forall parsed,
        net.ParseIP newIP = Some parsed ->
        net.SplitHostPort "[fd00::53]:853" = (newIP, port, None)).
Proof.
  apply (replaceIP_keeps_port "[2001:4860:4860::8888]:853"
           ["10.0.0.1"; "fd00::53"] "[fd00::53]:853").
  reflexivity.
Defined.

(** C4: on the empty resolver list [replaceIP] fails with the "no
    resolvers" error and the empty string, whatever the address is: the
    list is looked at first, so an address that [net.SplitHostPort]
    rejects, or whose host is no IP literal, gets this error too and not
    the one of the split or of the parse. *)
Theorem replaceIP_no_resolvers (addr : string) :
  exists e,
    replaceIP addr [] = (EmptyString, Some e) /\
    NoResolvers e /\ Error e = "no resolvers" /\ ~ InvalidAddress e.
Proof.
  exists (errors.New "no resolvers").
  repeat split.
  intros [[why [a H]]|[host H]]; discriminate H.
Qed.

(** C5: on a non-empty resolver list, [replaceIP] fails with the error of
    [net.SplitHostPort] when the address does not split, and with the
    "cannot parse resolver-ip" error when the host is no IP literal; both
    are [InvalidAddress] errors, and the string returned with them is
    empty. *)
Theorem replaceIP_invalid_address (addr : string) (ips : list string) :
  ips <> [] ->
  (forall host port e,
     net.SplitHostPort addr = (host, port, Some e) ->
     replaceIP addr ips = (EmptyString, Some e) /\
     (exists why, e = AddrError why addr) /\ InvalidAddress e) /\
  (forall orighost port,
     net.SplitHostPort addr = (orighost, port, None) ->
     net.ParseIP orighost = None ->
     exists e,
       replaceIP addr ips = (EmptyString, Some e) /\
       e = fmt.Errorf1 "cannot parse resolver-ip: " orighost /\
       InvalidAddress e /\ ~ NoResolvers e).
Proof.
  intros Hne. destruct ips as [|ips0 rest]; [contradiction|].
  split.
  - intros host port e Hs.
    destruct (SplitHostPort_error _ _ _ _ Hs) as [_ [_ [why ->]]].
    unfold replaceIP. rewrite Hs.
    split; [reflexivity|]. split; [exists why; reflexivity|].
    left. exists why, addr. reflexivity.
  - intros orighost port Hs Hp.
    exists (fmt.Errorf1 "cannot parse resolver-ip: " orighost).
    unfold replaceIP. rewrite Hs, Hp.
    split; [reflexivity|]. split; [reflexivity|]. split.
    + right. exists orighost. reflexivity.
    + unfold NoResolvers, fmt.Errorf1, errors.New. intros H.
      inversion H.
Qed.

Lemma replaceIP_invalid_address_witness :
  (forall host port e,
     net.SplitHostPort "8.8.8.8" = (host, port, Some e) ->
     replaceIP "8.8.8.8" ["10.0.0.1"] = (EmptyString, Some e) /\
     (exists why, e = AddrError why "8.8.8.8") /\ InvalidAddress e) /\
  (forall orighost port,
     net.SplitHostPort "8.8.8.8" = (orighost, port, None) ->
     net.ParseIP orighost = None ->
     exists e,
       replaceIP "8.8.8.8" ["10.0.0.1"] = (EmptyString, Some e) /\
       e = fmt.Errorf1 "cannot parse resolver-ip: " orighost /\
       InvalidAddress e /\ ~ NoResolvers e).
Proof.
  apply (replaceIP_invalid_address "8.8.8.8" ["10.0.0.1"]). discriminate.
Defined.

(** The comma-separated list of no resolver at all. *)
Lemma Split_empty : Split EmptyString "," = [EmptyString].
Proof. reflexivity. Qed.

(** ** The control hook and the factories *)

Section ProtectProperties.

Variables PS Context Conn : Type.
Variable connect :
  ptr -> Context -> string -> string -> M PS (option Conn * option error).

(** The error the hook returns is the one of [RawConn.Control]: it does
    not depend on the Protector. *)
Lemma makeControl_error (p : Protector PS) (network address : string)
  (c : RawConn) (env : Env PS) :
  fst (makeControl p network address c env) =
    match c with
    | RawConnFD _ => None
    | RawConnClosed err => Some err
    end.
Proof.
  destruct c as [fd|err]; [|reflexivity].
  unfold makeControl, RawConn_Control, bind, call_Protect.
  destruct (Protect p (int32 fd) (pstate env)) as [ok ps].
  destruct ok; reflexivity.
Qed.

(** C7: when the hook made by [makeControl] is run on a socket whose
    descriptor is [fd] and the Protector's [Protect] returns false on
    it, the hook returns nil, and what it does is the call of [Protect]
    followed by one call of [log.Errorf], nothing else. *)
Theorem makeControl_protect_failure (p : Protector PS)
  (network address : string) (fd : Z) (env : Env PS) (ps' : PS) :
  Protect p (int32 fd) (pstate env) = (false, ps') ->
  makeControl p network address (RawConnFD fd) env =
    (None,
     {| pstate := ps';
        trace := (trace env ++
                  [EvProtect (int32 fd) false;
                   EvErrorf ("Failed to protect a " ++ network ++ " socket")])%list |}).
Proof.
  intros Hp.
  unfold makeControl, RawConn_Control, bind, call_Protect, log_Errorf, emit, ret.
  rewrite Hp. simpl. rewrite <- app_assoc. reflexivity.
Qed.

(** What [MakeDialer] builds for a Protector: the Dialer at [d], with
    its Resolver at the next cell. *)
Lemma MakeDialer_Some (p : Protector PS) (h : Heap PS Context Conn) :
  MakeDialer connect (Some p) h =
    (List.length h,
     (h ++ [ODialer {| Timeout := 0; Deadline := 0; LocalAddr := None;
                       DualStack := false; FallbackDelay := 0; KeepAlive := 0;
                       Dialer_Resolver := Some (S (List.length h));
                       Dialer_Control := Some (makeControl p) |};
            OResolver {| PreferGo := true; StrictErrors := false;
                         Resolver_Dial :=
                           Some (resolverDialer connect p (List.length h)) |}])%list).
Proof.
  unfold MakeDialer, new, set_Resolver. f_equal.
  rewrite <- app_assoc. simpl.
  rewrite list_lookup_middle by reflexivity.
  rewrite insert_app_r_alt by lia.
  rewrite Nat.sub_diag, length_app. simpl.
  rewrite Nat.add_1_r. reflexivity.
Qed.

(** How the resolver dial function of the Dialer goes. *)
Lemma resolverDialer_run (p : Protector PS) (d : ptr) (ctx : Context)
  (network address : string) (env : Env PS) (resolvers : string) (ps' : PS) :
  GetResolvers p (pstate env) = (resolvers, ps') ->
  resolverDialer connect p d ctx network address env =
    let env1 := {| pstate := ps';
                   trace := (trace env ++ [EvGetResolvers resolvers])%list |} in
    match replaceIP address (Split resolvers ",") with
    | (_, Some err) => ((None, Some err), env1)
    | (newAddress, None) => DialContext connect d ctx network newAddress env1
    end.
Proof.
  intros Hg. unfold resolverDialer, bind, call_GetResolvers. rewrite Hg.
  destruct (replaceIP address (Split resolvers ",")) as [newAddress [err|]];
    reflexivity.
Qed.

(** [d.DialContext] leaves its request in the trace. *)
Lemma DialContext_trace (d : ptr) (ctx : Context) (network address : string)
  (env : Env PS) :
  DialContext connect d ctx network address env =
    connect d ctx network address
      {| pstate := pstate env;
         trace := (trace env ++ [EvDialContext d network address])%list |}.
Proof. reflexivity. Qed.

(** C8: the Dialer that [MakeDialer] builds for a Protector has the
    control hook of the Protector and a Resolver whose dial function
    first asks the Protector for the resolvers and rewrites the
    address.  When the rewrite fails, the dial function returns no
    connection and the error of the rewrite, and nothing was asked of
    the network; when it succeeds, the dial function is
    [d.DialContext] on the rewritten address, [d] being the Dialer that
    [MakeDialer] returned. *)
Theorem MakeDialer_resolver_dial (p : Protector PS)
  (h : Heap PS Context Conn) (d : ptr) (h' : Heap PS Context Conn) :
  MakeDialer connect (Some p) h = (d, h') ->
  exists dl r rs dial,
    h' !! d = Some (ODialer dl) /\
    Dialer_Control dl = Some (makeControl p) /\
    Dialer_Resolver dl = Some r /\
    h' !! r = Some (OResolver rs) /\
    PreferGo rs = true /\
    Resolver_Dial rs = Some dial /\
    forall (ctx : Context) (network address : string) (env : Env PS)
           (resolvers : string) (ps' : PS),
      GetResolvers p (pstate env) = (resolvers, ps') ->
      let env1 := {| pstate := ps';
                     trace := (trace env ++ [EvGetResolvers resolvers])%list |} in
      (forall s err,
          replaceIP address (Split resolvers ",") = (s, Some err) ->
          dial ctx network address env = ((None, Some err), env1)) /\
      (forall newAddress,
          replaceIP address (Split resolvers ",") = (newAddress, None) ->
          dial ctx network address env =
            DialContext connect d ctx network newAddress env1).
Proof.
  rewrite MakeDialer_Some. intros H. injection H as <- <-.
  eexists _, (S (List.length h)), _, (resolverDialer connect p (List.length h)).
  split; [apply list_lookup_middle; reflexivity|].
  split; [reflexivity|]. split; [reflexivity|].
  split.
  { change (h ++ [?a; ?b])%list with (h ++ [a] ++ [b])%list.
    rewrite app_assoc. apply list_lookup_middle.
    rewrite length_app. simpl. lia. }
  split; [reflexivity|]. split; [reflexivity|].
  intros ctx network address env resolvers ps' Hg env1.
  rewrite (resolverDialer_run _ _ _ _ _ _ _ _ Hg). fold env1.
  split.
  - intros s err Hr. rewrite Hr. reflexivity.
  - intros newAddress Hr. rewrite Hr. reflexivity.
Qed.

(** C9: for the nil Protector, [MakeDialer] returns a pointer to a new
    [net.Dialer{}] and [MakeListenConfig] a pointer to a new
    [net.ListenConfig{}]: the zero values, in which neither a control
    hook nor a resolver is set. *)
Theorem Make_nil_Protector (h : Heap PS Context Conn) :
  snd (MakeDialer connect None h) !! fst (MakeDialer connect None h)
    = Some (ODialer zeroDialer) /\
  snd (MakeListenConfig (@None (Protector PS)) h)
    !! fst (MakeListenConfig (@None (Protector PS)) h)
    = Some (OListenConfig zeroListenConfig) /\
  Dialer_Control (@zeroDialer PS) = None /\
  Dialer_Resolver (@zeroDialer PS) = None /\
  ListenConfig_Control (@zeroListenConfig PS) = None.
Proof.
  unfold MakeDialer, MakeListenConfig, new. simpl.
  split; [apply list_lookup_middle; reflexivity|].
  split; [apply list_lookup_middle; reflexivity|].
  repeat split.
Qed.

(** C10: when no entry of the list matches the family of the host, the
    first entry is substituted even when it is no IP literal.  So when
    [GetResolvers] returns the empty string, which [strings.Split]
    turns into the list of one empty string, the rewrite of a
    well-formed address does not fail: it returns ":port", and the
    resolver dial function dials that address. *)
Theorem replaceIP_unparseable_fallback :
  (forall addr ips0 rest orighost port origip,
      net.SplitHostPort addr = (orighost, port, None) ->
      net.ParseIP orighost = Some origip ->
      net.ParseIP ips0 = None ->
      (forall e, In e rest -> ~ matches (isV4 origip) e) ->
      replaceIP addr (ips0 :: rest) = (net.JoinHostPort ips0 port, None)) /\
  Split EmptyString "," = [EmptyString] /\
  (forall addr orighost port origip,
      net.SplitHostPort addr = (orighost, port, None) ->
      net.ParseIP orighost = Some origip ->
      replaceIP addr (Split EmptyString ",") = ((":" ++ port)%string, None)) /\
  (forall (p : Protector PS) (d : ptr) (ctx : Context)
          (network addr : string) (env : Env PS) (ps' : PS)
          orighost port origip,
      GetResolvers p (pstate env) = (EmptyString, ps') ->
      net.SplitHostPort addr = (orighost, port, None) ->
      net.ParseIP orighost = Some origip ->
      resolverDialer connect p d ctx network addr env =
        DialContext connect d ctx network (":" ++ port)%string
          {| pstate := ps';
             trace := (trace env ++ [EvGetResolvers EmptyString])%list |}).
Proof.
  assert (Hfall : forall addr ips0 rest orighost port origip,
             net.SplitHostPort addr = (orighost, port, None) ->
             net.ParseIP orighost = Some origip ->
             net.ParseIP ips0 = None ->
             (forall e, In e rest -> ~ matches (isV4 origip) e) ->
             replaceIP addr (ips0 :: rest) = (net.JoinHostPort ips0 port, None)).
  { intros addr ips0 rest orighost port origip Hs Hp Hn Hrest.
    apply (replaceIP_no_match _ _ _ _ _ _ Hs Hp).
    intros e [<-|Hin].
    - apply not_matches_unparseable. exact Hn.
    - apply Hrest. exact Hin. }
  assert (Hempty : forall addr orighost port origip,
             net.SplitHostPort addr = (orighost, port, None) ->
             net.ParseIP orighost = Some origip ->
             replaceIP addr (Split EmptyString ",") = ((":" ++ port)%string, None)).
  { intros addr orighost port origip Hs Hp. rewrite Split_empty.
    rewrite (Hfall _ _ _ _ _ _ Hs Hp ParseIP_empty); [reflexivity|].
    intros e []. }
  split; [exact Hfall|]. split; [exact Split_empty|]. split; [exact Hempty|].
  intros p d ctx network addr env ps' orighost port origip Hg Hs Hp.
  rewrite (resolverDialer_run _ _ _ _ _ _ _ _ Hg).
  rewrite (Hempty _ _ _ _ Hs Hp). reflexivity.
Qed.

End ProtectProperties.

(** ** Instances *)

Lemma makeControl_protect_failure_witness :
  makeControl (hostProtector false "10.0.0.1") "tcp4" "93.184.216.34:443"
    (RawConnFD 42) {| pstate := 0%nat; trace := [] |} =
    (None,
     {| pstate := 1%nat;
        trace := [EvProtect 42 false;
                  EvErrorf "Failed to protect a tcp4 socket"] |}).
Proof.
  apply (makeControl_protect_failure nat (hostProtector false "10.0.0.1")
           "tcp4" "93.184.216.34:443" 42 {| pstate := 0%nat; trace := [] |} 1%nat).
  reflexivity.
Defined.

Lemma MakeDialer_resolver_dial_witness :
  exists dl r rs dial,
    snd (MakeDialer reach (Some (hostProtector true "10.0.0.1,bad")) [])
      !! 0%nat = Some (ODialer dl) /\
    Dialer_Control dl = Some (makeControl (hostProtector true "10.0.0.1,bad")) /\
    Dialer_Resolver dl = Some r /\
    snd (MakeDialer reach (Some (hostProtector true "10.0.0.1,bad")) [])
      !! r = Some (OResolver rs) /\
    PreferGo rs = true /\
    Resolver_Dial rs = Some dial /\
    forall (ctx : unit) (network address : string) (env : Env nat)
           (resolvers : string) (ps' : nat),
      GetResolvers (hostProtector true "10.0.0.1,bad") (pstate env)
        = (resolvers, ps') ->
      let env1 := {| pstate := ps';
                     trace := (trace env ++ [EvGetResolvers resolvers])%list |} in
      (forall s err,
          replaceIP address (Split resolvers ",") = (s, Some err) ->
          dial ctx network address env = ((None, Some err), env1)) /\
      (forall newAddress,
          replaceIP address (Split resolvers ",") = (newAddress, None) ->
          dial ctx network address env =
            DialContext reach 0%nat ctx network newAddress env1).
Proof.
  apply (MakeDialer_resolver_dial nat unit nat reach
           (hostProtector true "10.0.0.1,bad") [] 0%nat).
  reflexivity.
Defined.

Lemma replaceIP_unparseable_fallback_witness :
  replaceIP "8.8.8.8:53" ["bad"; "2001:db8::1"] = ("bad:53", None) /\
  replaceIP "8.8.8.8:53" (Split EmptyString ",") = (":53", None) /\
  resolverDialer reach (hostProtector true EmptyString) 0%nat tt "udp"
    "8.8.8.8:53" {| pstate := 0%nat; trace := [] |} =
    ((Some 0%nat, None),
     {| pstate := 1%nat;
        trace := [EvGetResolvers EmptyString; EvDialContext 0%nat "udp" ":53"] |}).
Proof.
  destruct (replaceIP_unparseable_fallback nat unit nat reach)
    as [Hfall [_ [Hempty Hdial]]].
  split; [|split].
  - apply (Hfall "8.8.8.8:53" "bad" ["2001:db8::1"] "8.8.8.8" "53"
             (net.IPv4 8 8 8 8)); try reflexivity.
    intros e [<-|[]]. exact not_matches_true_v6.
  - apply (Hempty "8.8.8.8:53" "8.8.8.8" "53" (net.IPv4 8 8 8 8)); reflexivity.
  - apply (Hdial (hostProtector true EmptyString) 0%nat tt "udp" "8.8.8.8:53"
             {| pstate := 0%nat; trace := [] |} 1%nat "8.8.8.8" "53"
             (net.IPv4 8 8 8 8)); reflexivity.
Defined.

(** * Further properties *)

(** ** The matcher, continued *)

Lemma matchesb_true (wantV4 : bool) (ip : string) :
  matchesb wantV4 ip = true <-> matches wantV4 ip.
Proof.
  unfold matchesb, matches. split.
  - destruct (net.ParseIP ip) as [parsed|]; [|discriminate].
    intros H. exists parsed. split; [reflexivity | apply Bool.eqb_prop, H].
  - intros [parsed [-> <-]]. apply Bool.eqb_reflx.
Qed.

Lemma matchesb_false (wantV4 : bool) (ip : string) :
  matchesb wantV4 ip = false <-> ~ matches wantV4 ip.
Proof.
  rewrite <- matchesb_true. destruct (matchesb wantV4 ip); split; intros H;
    try reflexivity; try discriminate; try (intros H'; discriminate H').
  exfalso. apply H. reflexivity.
Qed.

Lemma literalByte_false (b : ascii) :
  literalByte b = false ->
  net.hexval b = None /\ "."%char <> b /\ ":"%char <> b.
Proof.
  unfold literalByte. intros H.
  apply orb_false_elim in H. destruct H as [H Hc].
  apply orb_false_elim in H. destruct H as [Hh Hd].
  split; [destruct (net.hexval b); [discriminate Hh | reflexivity]|].
  split; intros <-; discriminate.
Qed.

(** An entry with a byte that is no hexadecimal digit, dot or colon (a
    space, a zone's percent sign, a bracket, a letter past [f]) is no IP
    literal. *)
Lemma ParseIP_literal (s : string) (b : ascii) :
  literalByte b = false -> hasByte s b = true -> net.ParseIP s = None.
Proof.
  intros Hb Hs. destruct (literalByte_false _ Hb) as [Hh [Hd Hc]].
  destruct (net.ParseIP s) as [ip|] eqn:Hp; [|reflexivity].
  rewrite (ParseIP_bytes b Hh Hd Hc _ _ Hp) in Hs. discriminate Hs.
Qed.

(** X1: matching over a concatenation: [scan] answers from the first
    list when it has a match there, and from the second list otherwise. *)
Theorem scan_app (l1 l2 : list string) (wantV4 : bool) :
  scan (l1 ++ l2)%list wantV4 =
    if String.eqb (scan l1 wantV4) EmptyString
    then scan l2 wantV4 else scan l1 wantV4.
Proof.
  induction l1 as [|ip l1 IH]; [reflexivity|].
  destruct (matches_decidable wantV4 ip) as [Hm|Hn].
  - change ((ip :: l1) ++ l2)%list with (ip :: (l1 ++ l2))%list.
    rewrite !(scan_cons_match _ _ _ Hm).
    apply matches_nonempty, String.eqb_neq in Hm. rewrite Hm. reflexivity.
  - change ((ip :: l1) ++ l2)%list with (ip :: (l1 ++ l2))%list.
    rewrite !(scan_cons_skip _ _ _ Hn). exact IH.
Qed.

(** X2: the empty string that [scan] returns means exactly that no entry
    matches: a match is never empty, so the test [newIP == ""] of
    [replaceIP] cannot take a match for a miss. *)
Theorem scan_empty_iff (ips : list string) (wantV4 : bool) :
  scan ips wantV4 = EmptyString <->
  (forall e, In e ips -> ~ matches wantV4 e).
Proof.
  split; [|apply scan_none].
  intros He e Hin Hm.
  destruct (scan_some ips wantV4 (ex_intro _ e (conj Hin Hm)))
    as [_ [_ [_ [_ Hs]]]].
  apply matches_nonempty in Hs. contradiction.
Qed.

(** X3: what [scan] returns has no byte other than hexadecimal digits,
    dots and colons: an entry with a space around it, with a zone
    ("fe80::1%wlan0") or in brackets is never matched. *)
Theorem scan_literal (ips : list string) (wantV4 : bool) (b : ascii) :
  literalByte b = false ->
  hasByte (scan ips wantV4) b = false /\
  (forall e, In e ips -> hasByte e b = true -> scan ips wantV4 <> e).
Proof.
  intros Hb.
  assert (Hclean : hasByte (scan ips wantV4) b = false).
  { destruct (scan_correct ips wantV4) as [before after _ _ [parsed [Hp _]] | _ ->];
      [|reflexivity].
    destruct (hasByte (scan ips wantV4) b) eqn:Hh; [|reflexivity].
    rewrite (ParseIP_literal _ _ Hb Hh) in Hp. discriminate Hp. }
  split; [exact Hclean|].
  intros e _ He Heq. rewrite Heq, He in Hclean. discriminate Hclean.
Qed.

Lemma scan_literal_witness :
  hasByte (scan ["fe80::1%wlan0"; " 10.0.0.1"; "fd00::53"] false) "%" = false /\
  (forall e, In e ["fe80::1%wlan0"; " 10.0.0.1"; "fd00::53"] ->
             hasByte e "%" = true ->
             scan ["fe80::1%wlan0"; " 10.0.0.1"; "fd00::53"] false <> e).
Proof.
  apply (scan_literal ["fe80::1%wlan0"; " 10.0.0.1"; "fd00::53"] false "%").
  reflexivity.
Defined.

(** [scan] does not see the entries that do not match. *)
Lemma scan_filter (ips : list string) (wantV4 : bool) :
  scan (List.filter (matchesb wantV4) ips) wantV4 = scan ips wantV4.
Proof.
  induction ips as [|ip ips IH]; [reflexivity|].
  simpl List.filter. destruct (matchesb wantV4 ip) eqn:Hm.
  - apply matchesb_true in Hm. rewrite !(scan_cons_match _ _ _ Hm). reflexivity.
  - apply matchesb_false in Hm. rewrite (scan_cons_skip _ _ _ Hm). exact IH.
Qed.

(** ** The rewriter, continued *)

(** How [replaceIP] fails on a non-empty list. *)
Lemma replaceIP_error (addr ips0 : string) (rest : list string)
  (s : string) (e : error) :
  replaceIP addr (ips0 :: rest) = (s, Some e) ->
  s = EmptyString /\ InvalidAddress e /\ ~ NoResolvers e.
Proof.
  unfold replaceIP.
  destruct (net.SplitHostPort addr) as [[orighost port] [e'|]] eqn:Hs.
  - intros H. injection H as <- <-.
    destruct (SplitHostPort_error _ _ _ _ Hs) as [_ [_ [why ->]]].
    split; [reflexivity|]. split.
    + left. exists why, addr. reflexivity.
    + intros Hn. discriminate Hn.
  - destruct (net.ParseIP orighost) as [origip|]; [discriminate|].
    intros H. injection H as <- <-.
    split; [reflexivity|]. split.
    + right. exists orighost. reflexivity.
    + unfold NoResolvers, fmt.Errorf1, errors.New. intros Hn. inversion Hn.
Qed.

(** X4: [replaceIP] succeeds exactly when the list is not empty, the
    address splits and its host is an IP literal: what the entries of the
    list are plays no part in it. *)
Theorem replaceIP_success_iff (addr : string) (ips : list string) :
  (exists newAddress, replaceIP addr ips = (newAddress, None)) <->
  (ips <> [] /\
   exists orighost port origip,
     net.SplitHostPort addr = (orighost, port, None) /\
     net.ParseIP orighost = Some origip).
Proof.
  split.
  - intros [newAddress H].
    destruct ips as [|ips0 rest]; [discriminate H|].
    split; [discriminate|].
    destruct (net.SplitHostPort addr) as [[orighost port] [e|]] eqn:Hs;
      [unfold replaceIP in H; rewrite Hs in H; discriminate H|].
    destruct (net.ParseIP orighost) as [origip|] eqn:Hp;
      [|unfold replaceIP in H; rewrite Hs, Hp in H; discriminate H].
    exists orighost, port, origip. split; [reflexivity | exact Hp].
  - intros [Hne [orighost [port [origip [Hs Hp]]]]].
    destruct ips as [|ips0 rest]; [contradiction|].
    rewrite (replaceIP_parsed _ _ _ _ _ _ Hs Hp). eexists. reflexivity.
Qed.

(** X5: a host with a byte that cannot occur in an IP literal (a host
    name with a letter past [f], an address with a zone) makes
    [replaceIP] fail with the "cannot parse resolver-ip" error that
    quotes the host. *)
Theorem replaceIP_host_not_literal (addr : string) (ips : list string)
  (orighost port : string) (b : ascii) :
  net.SplitHostPort addr = (orighost, port, None) ->
  literalByte b = false ->
  hasByte orighost b = true ->
  ips <> [] ->
  replaceIP addr ips =
    (EmptyString, Some (fmt.Errorf1 "cannot parse resolver-ip: " orighost)).
Proof.
  intros Hs Hb Hh Hne. destruct ips as [|ips0 rest]; [contradiction|].
  unfold replaceIP. rewrite Hs, (ParseIP_literal _ _ Hb Hh). reflexivity.
Qed.

Lemma replaceIP_host_not_literal_witness :
  replaceIP "[fe80::1%wlan0]:53" ["10.0.0.1"] =
    (EmptyString,
     Some (fmt.Errorf1 "cannot parse resolver-ip: " "fe80::1%wlan0")).
Proof.
  apply (replaceIP_host_not_literal "[fe80::1%wlan0]:53" ["10.0.0.1"]
           "fe80::1%wlan0" "53" "%"); try reflexivity.
  discriminate.
Defined.

(** X6: the port is not looked at: an IP literal joined with any port
    that has no colon and no bracket, the empty port and service names
    included, is rewritten, with that port, to an entry of the list. *)
Theorem replaceIP_any_port (host port : string) (ip : net.IP)
  (ips : list string) :
  net.ParseIP host = Some ip ->
  hasByte port ":" = false ->
  hasByte port "[" = false ->
  hasByte port "]" = false ->
  ips <> [] ->
  exists newIP,
    In newIP ips /\
    replaceIP (net.JoinHostPort host port) ips
      = (net.JoinHostPort newIP port, None).
Proof.
  intros Hp Hc Hl Hr Hne.
  destruct (ParseIP_no_bracket _ _ Hp) as [Hhl Hhr].
  pose proof (SplitHostPort_JoinHostPort host port Hhl Hhr Hc Hl Hr) as Hs.
  destruct ips as [|ips0 rest]; [contradiction|].
  rewrite (replaceIP_parsed _ _ _ _ _ _ Hs Hp).
  pose proof (scan_in (ips0 :: rest) (isV4 ip)) as Hin.
  destruct (String.eqb (scan (ips0 :: rest) (isV4 ip)) EmptyString) eqn:He.
  - exists ips0. split; [left; reflexivity | reflexivity].
  - exists (scan (ips0 :: rest) (isV4 ip)). split; [|reflexivity].
    destruct Hin as [Hn|Hin]; [|exact Hin].
    apply String.eqb_neq in He. contradiction.
Qed.

Lemma replaceIP_any_port_witness :
  exists newIP,
    In newIP ["fd00::53"; "10.0.0.1"] /\
    replaceIP (net.JoinHostPort "8.8.4.4" "") ["fd00::53"; "10.0.0.1"]
      = (net.JoinHostPort newIP "", None).
Proof.
  apply (replaceIP_any_port "8.8.4.4" "" (net.IPv4 8 8 4 4)
           ["fd00::53"; "10.0.0.1"]); try reflexivity.
  discriminate.
Defined.

(** X7: of the host of the address only the family counts: two
    addresses with the same port and hosts of the same family are
    rewritten to the same address. *)
Theorem replaceIP_family_only (addr1 addr2 : string) (ips : list string)
  (host1 host2 port : string) (ip1 ip2 : net.IP) :
  net.SplitHostPort addr1 = (host1, port, None) ->
  net.SplitHostPort addr2 = (host2, port, None) ->
  net.ParseIP host1 = Some ip1 ->
  net.ParseIP host2 = Some ip2 ->
  isV4 ip1 = isV4 ip2 ->
  replaceIP addr1 ips = replaceIP addr2 ips.
Proof.
  intros Hs1 Hs2 Hp1 Hp2 Hf.
  destruct ips as [|ips0 rest]; [reflexivity|].
  rewrite (replaceIP_parsed _ _ _ _ _ _ Hs1 Hp1).
  rewrite (replaceIP_parsed _ _ _ _ _ _ Hs2 Hp2).
  rewrite Hf. reflexivity.
Qed.

Lemma replaceIP_family_only_witness :
  replaceIP "8.8.8.8:53" ["fd00::53"; "10.0.0.1"]
  = replaceIP "[::ffff:1.1.1.1]:53" ["fd00::53"; "10.0.0.1"].
Proof.
  apply (replaceIP_family_only "8.8.8.8:53" "[::ffff:1.1.1.1]:53"
           ["fd00::53"; "10.0.0.1"] "8.8.8.8" "::ffff:1.1.1.1" "53"
           (net.IPv4 8 8 8 8) (net.IPv4 1 1 1 1)); reflexivity.
Defined.

(** X8: when the list has an entry of the family of the host, the
    entries that are unparseable or of the other family do not count:
    the rewrite is the one of the list without them. *)
Theorem replaceIP_filter (addr : string) (ips : list string)
  (orighost port : string) (origip : net.IP) :
  net.SplitHostPort addr = (orighost, port, None) ->
  net.ParseIP orighost = Some origip ->
  (exists e, In e ips /\ matches (isV4 origip) e) ->
  replaceIP addr (List.filter (matchesb (isV4 origip)) ips) = replaceIP addr ips.
Proof.
  intros Hs Hp [e [Hin Hm]].
  assert (Hf : In e (List.filter (matchesb (isV4 origip)) ips)).
  { apply filter_In. split; [exact Hin | apply matchesb_true, Hm]. }
  pose proof (scan_filter ips (isV4 origip)) as Hsf.
  destruct (scan_some ips (isV4 origip) (ex_intro _ e (conj Hin Hm)))
    as [_ [_ [_ [_ Hfound]]]].
  apply matches_nonempty, String.eqb_neq in Hfound.
  destruct ips as [|ips0 rest]; [destruct Hin|].
  destruct (List.filter (matchesb (isV4 origip)) (ips0 :: rest)) as [|f0 frest];
    [destruct Hf|].
  rewrite !(replaceIP_parsed _ _ _ _ _ _ Hs Hp).
  rewrite Hsf, Hfound. reflexivity.
Qed.

Lemma replaceIP_filter_witness :
  replaceIP "8.8.8.8:53"
    (List.filter (matchesb true) ["bad"; "fd00::53"; "10.0.0.1"; "10.0.0.2"])
  = replaceIP "8.8.8.8:53" ["bad"; "fd00::53"; "10.0.0.1"; "10.0.0.2"].
Proof.
  apply (replaceIP_filter "8.8.8.8:53"
           ["bad"; "fd00::53"; "10.0.0.1"; "10.0.0.2"] "8.8.8.8" "53"
           (net.IPv4 8 8 8 8)); try reflexivity.
  exists "10.0.0.1". split.
  - simpl. auto.
  - exists (net.IPv4 10 0 0 1). split; reflexivity.
Defined.

(** X9: rewriting is idempotent when the first entry of the list is an
    IP literal: the address [replaceIP] returns is rewritten to itself. *)
Theorem replaceIP_idempotent (addr : string) (ips : list string)
  (newAddress : string) (first : net.IP) :
  replaceIP addr ips = (newAddress, None) ->
  net.ParseIP (hd EmptyString ips) = Some first ->
  replaceIP newAddress ips = (newAddress, None).
Proof.
  intros H Hfirst.
  destruct ips as [|ips0 rest]; [discriminate H|].
  simpl hd in Hfirst.
  destruct (net.SplitHostPort addr) as [[orighost port] [e|]] eqn:Hs;
    [unfold replaceIP in H; rewrite Hs in H; discriminate H|].
  destruct (net.ParseIP orighost) as [origip|] eqn:Hp;
    [|unfold replaceIP in H; rewrite Hs, Hp in H; discriminate H].
  rewrite (replaceIP_parsed _ _ _ _ _ _ Hs Hp) in H.
  destruct (String.eqb (scan (ips0 :: rest) (isV4 origip)) EmptyString) eqn:He.
  - (* the fallback: the first entry, of its own family *)
    assert (Hj : newAddress = net.JoinHostPort ips0 port) by congruence.
    subst newAddress.
    pose proof (SplitHostPort_rewritten _ _ _ _ _ Hs Hfirst) as Hs'.
    rewrite (replaceIP_parsed _ _ _ _ _ _ Hs' Hfirst).
    assert (Hm : matches (isV4 first) ips0)
      by (exists first; split; [exact Hfirst | reflexivity]).
    rewrite (scan_cons_match _ _ _ Hm).
    apply matches_nonempty, String.eqb_neq in Hm. rewrite Hm. reflexivity.
  - (* a match: an entry of the family of the host *)
    assert (Hj : newAddress =
                 net.JoinHostPort (scan (ips0 :: rest) (isV4 origip)) port)
      by congruence.
    apply String.eqb_neq in He.
    assert (Hm : matches (isV4 origip) (scan (ips0 :: rest) (isV4 origip))).
    { destruct (scan_correct (ips0 :: rest) (isV4 origip))
        as [before after _ _ Hm | _ Hn]; [exact Hm | contradiction]. }
    destruct Hm as [parsed [Hparsed Hfam]].
    pose proof (SplitHostPort_rewritten _ _ _ _ _ Hs Hparsed) as Hs'.
    rewrite Hj.
    rewrite (replaceIP_parsed _ _ _ _ _ _ Hs' Hparsed).
    rewrite Hfam. apply String.eqb_neq in He. rewrite He. reflexivity.
Qed.

Lemma replaceIP_idempotent_witness :
  replaceIP "[fd00::53]:53" ["fd00::53"; "10.0.0.1"] = ("[fd00::53]:53", None).
Proof.
  apply (replaceIP_idempotent "[2001:db8::1]:53" ["fd00::53"; "10.0.0.1"]
           "[fd00::53]:53"
           [0xfd; 0; 0; 0; 0; 0; 0; 0; 0; 0; 0; 0; 0; 0; 0; 0x53]).
  - reflexivity.
  - reflexivity.
Defined.

(** A literal without a colon is a dotted decimal, which [net.ParseIP]
    gives in the form of [net.IPv4]: its family is IPv4. *)
Lemma parseIPv4_isV4 (s : string) (ip : net.IP) :
  net.parseIPv4 s = Some ip -> isV4 ip = true.
Proof.
  unfold net.parseIPv4.
  destruct (net.parseIPv4_loop 4 0 s [0; 0; 0; 0]) as [[s' p]|]; [|discriminate].
  destruct (negb (len s' =? 0)); [discriminate|].
  intros H. injection H as <-. reflexivity.
Qed.

Lemma ParseIP_loop_no_colon (s rest : string) (ip : net.IP) :
  hasByte rest ":" = false ->
  net.ParseIP_loop s rest = Some ip -> isV4 ip = true.
Proof.
  induction rest as [|x rest IH]; simpl; [discriminate|].
  intros H. apply orb_false_elim in H. destruct H as [Hx Hrest].
  destruct (Ascii.eqb x "."); [apply parseIPv4_isV4|].
  rewrite Hx. apply IH, Hrest.
Qed.

Lemma matches_v6_colon (e : string) : matches false e -> hasByte e ":" = true.
Proof.
  intros [parsed [Hp Hf]].
  destruct (hasByte e ":") eqn:Hc; [reflexivity|].
  rewrite (ParseIP_loop_no_colon e e parsed Hc Hp) in Hf. discriminate Hf.
Qed.

(** X10: an IPv6 host is rewritten to a bracketed address: when the host
    of the address is of the IPv6 family and the list has an entry of
    that family, the result is "[entry]:port". *)
Theorem replaceIP_v6_bracketed (addr : string) (ips : list string)
  (orighost port : string) (origip : net.IP) :
  net.SplitHostPort addr = (orighost, port, None) ->
  net.ParseIP orighost = Some origip ->
  isV4 origip = false ->
  (exists e, In e ips /\ matches false e) ->
  exists newIP,
    In newIP ips /\ matches false newIP /\
    replaceIP addr ips = (("[" ++ newIP ++ "]:" ++ port)%string, None).
Proof.
  intros Hs Hp Hf Hex. rewrite <- Hf in Hex.
  destruct (scan_some ips (isV4 origip) Hex) as [before [after [Heq [_ Hm]]]].
  exists (scan ips (isV4 origip)).
  split.
  { remember (scan ips (isV4 origip)) as r eqn:Er. clear Er. subst ips.
    apply in_or_app. right. left. reflexivity. }
  rewrite Hf in Hm at 1. split; [exact Hm|].
  destruct ips as [|ips0 rest]; [destruct Hex as [e [[] _]]|].
  rewrite (replaceIP_parsed _ _ _ _ _ _ Hs Hp).
  pose proof (matches_v6_colon _ Hm) as Hc.
  apply matches_nonempty, String.eqb_neq in Hm. rewrite Hm.
  unfold net.JoinHostPort. rewrite IndexByteString_hasByte, Hc. reflexivity.
Qed.

Lemma replaceIP_v6_bracketed_witness :
  exists newIP,
    In newIP ["10.0.0.1"; "fd00::53"] /\ matches false newIP /\
    replaceIP "[2001:db8::1]:853" ["10.0.0.1"; "fd00::53"]
      = (("[" ++ newIP ++ "]:" ++ "853")%string, None).
Proof.
  apply (replaceIP_v6_bracketed "[2001:db8::1]:853" ["10.0.0.1"; "fd00::53"]
           "2001:db8::1" "853"
           [0x20; 0x01; 0x0d; 0xb8; 0; 0; 0; 0; 0; 0; 0; 0; 0; 0; 0; 1]).
  - reflexivity.
  - reflexivity.
  - reflexivity.
  - exists "fd00::53". split.
    + simpl. auto.
    + exists [0xfd; 0; 0; 0; 0; 0; 0; 0; 0; 0; 0; 0; 0; 0; 0; 0x53].
      split; reflexivity.
Defined.

(** [strings.Split] never gives the empty list for a separator that is
    not empty. *)
Lemma split_loop_nonempty (sep s : string) (skip : nat) (cur : string) :
  split_loop sep s skip cur <> [].
Proof.
  revert skip cur. induction s as [|c s IH]; intros skip cur;
    [simpl; discriminate|].
  destruct skip as [|k]; [|apply (IH k cur)].
  change (split_loop sep (String c s) 0 cur)
    with (if HasPrefix (String c s) sep
          then rev_acc cur EmptyString
                 :: split_loop sep s (String.length sep - 1) EmptyString
          else split_loop sep s 0 (String c cur)).
  destruct (HasPrefix (String c s) sep); [discriminate | apply IH].
Qed.

(** X11: the list that the resolver dial function of [MakeDialer] hands
    to [replaceIP] is never empty, whatever [GetResolvers] returns: so
    the rewrite there never fails with the "no resolvers" error; when it
    fails, it is with an [InvalidAddress] error and the empty string. *)
Theorem replaceIP_Split_error (resolvers address : string) :
  Split resolvers "," <> [] /\
  (forall s e,
      replaceIP address (Split resolvers ",") = (s, Some e) ->
      s = EmptyString /\ InvalidAddress e /\ ~ NoResolvers e).
Proof.
  assert (Hne : Split resolvers "," <> []) by apply split_loop_nonempty.
  split; [exact Hne|].
  intros s e H.
  destruct (Split resolvers ",") as [|ips0 rest]; [contradiction|].
  apply (replaceIP_error _ _ _ _ _ H).
Qed.

Lemma replaceIP_Split_error_witness :
  EmptyString = EmptyString /\
  InvalidAddress (fmt.Errorf1 "cannot parse resolver-ip: " "dns.google") /\
  ~ NoResolvers (fmt.Errorf1 "cannot parse resolver-ip: " "dns.google").
Proof.
  destruct (replaceIP_Split_error EmptyString "dns.google:53") as [_ H].
  apply (H EmptyString (fmt.Errorf1 "cannot parse resolver-ip: " "dns.google")).
  reflexivity.
Defined.

(** ** The control hook and the factories, continued *)

(** The conversion [int32(fd)]: the identity on descriptors below 2^31,
    always in the range of [int32], and blind to multiples of 2^32. *)
Lemma int32_small (fd : Z) : 0 <= fd < 2 ^ 31 -> int32 fd = fd.
Proof.
  intros H. unfold int32. rewrite Z.mod_small by lia.
  destruct (fd <? 2 ^ 31) eqn:E; [reflexivity | lia].
Qed.

Lemma int32_range (fd : Z) : - 2 ^ 31 <= int32 fd < 2 ^ 31.
Proof.
  unfold int32. pose proof (Z.mod_pos_bound fd (2 ^ 32) ltac:(lia)).
  destruct (fd mod 2 ^ 32 <? 2 ^ 31) eqn:E; lia.
Qed.

Lemma int32_wrap (fd k : Z) : int32 (fd + k * 2 ^ 32) = int32 fd.
Proof. unfold int32. rewrite Z.mod_add by lia. reflexivity. Qed.

Section FactoryProperties.

Variables PS Context Conn : Type.
Variable connect :
  ptr -> Context -> string -> string -> M PS (option Conn * option error).

(** What the hook does on a socket, for either answer of [Protect]. *)
Lemma makeControl_live (p : Protector PS) (network address : string)
  (fd : Z) (env : Env PS) (ok : bool) (ps' : PS) :
  Protect p (int32 fd) (pstate env) = (ok, ps') ->
  makeControl p network address (RawConnFD fd) env =
    (None,
     {| pstate := ps';
        trace := (trace env ++
                  EvProtect (int32 fd) ok ::
                  (if ok then []
                   else [EvErrorf ("Failed to protect a " ++ network ++ " socket")]))%list |}).
Proof.
  intros Hp.
  unfold makeControl, RawConn_Control, bind, call_Protect, log_Errorf, emit, ret.
  rewrite Hp. destruct ok; simpl; [reflexivity|].
  rewrite <- app_assoc. reflexivity.
Qed.

(** X12: when [Protect] accepts the socket, the hook returns nil and the
    call of [Protect], made once, is all it does: nothing is logged.  On a
    connection whose descriptor is no longer usable the hook returns the
    error of [RawConn.Control] and does nothing: [Protect] is not
    called. *)
Theorem makeControl_quiet (p : Protector PS) (network address : string)
  (env : Env PS) :
  (forall fd ps',
      Protect p (int32 fd) (pstate env) = (true, ps') ->
      makeControl p network address (RawConnFD fd) env =
        (None,
         {| pstate := ps';
            trace := (trace env ++ [EvProtect (int32 fd) true])%list |})) /\
  (forall err,
      makeControl p network address (RawConnClosed err) env = (Some err, env)).
Proof.
  split.
  - intros fd ps' Hp. apply (makeControl_live _ _ _ _ _ _ _ Hp).
  - intros err. reflexivity.
Qed.

(** X13: the socket that the hook hands to [Protect] is [int32(fd)]: the
    descriptor itself when it is below 2^31, always a number in the range
    of [int32], and the same for two descriptors that differ by a
    multiple of 2^32, on which the hook then does the same. *)
Theorem makeControl_socket (p : Protector PS) (network address : string)
  (fd : Z) (env : Env PS) :
  (exists ok ps',
      Protect p (int32 fd) (pstate env) = (ok, ps') /\
      - 2 ^ 31 <= int32 fd < 2 ^ 31 /\
      (0 <= fd < 2 ^ 31 -> int32 fd = fd) /\
      In (EvProtect (int32 fd) ok)
         (trace (snd (makeControl p network address (RawConnFD fd) env)))) /\
  (forall k,
      makeControl p network address (RawConnFD (fd + k * 2 ^ 32)) env
      = makeControl p network address (RawConnFD fd) env).
Proof.
  split.
  - destruct (Protect p (int32 fd) (pstate env)) as [ok ps'] eqn:Hp.
    exists ok, ps'. split; [reflexivity|].
    split; [apply int32_range|]. split; [apply int32_small|].
    rewrite (makeControl_live _ _ _ _ _ _ _ Hp). simpl.
    apply in_or_app. right. left. reflexivity.
  - intros k. unfold makeControl, RawConn_Control.
    rewrite int32_wrap. reflexivity.
Qed.

(** X14: the factories only allocate: [MakeDialer] returns the first
    free pointer and adds two cells for a Protector (the Dialer and its
    Resolver) and one for nil, [MakeListenConfig] adds one; every object
    that was in the heap is still there, unchanged. *)
Theorem factories_allocate (p : option (Protector PS))
  (h : Heap PS Context Conn) :
  (fst (MakeDialer connect p h) = List.length h /\
   List.length (snd (MakeDialer connect p h))
     = (List.length h + match p with Some _ => 2 | None => 1 end)%nat /\
   forall i o, h !! i = Some o -> snd (MakeDialer connect p h) !! i = Some o) /\
  (fst (MakeListenConfig p h) = List.length h /\
   List.length (snd (MakeListenConfig p h)) = S (List.length h) /\
   forall i o, h !! i = Some o -> snd (MakeListenConfig p h) !! i = Some o).
Proof.
  split.
  - destruct p as [p|].
    + rewrite MakeDialer_Some. simpl fst. simpl snd.
      split; [reflexivity|]. split; [rewrite length_app; reflexivity|].
      intros i o Hi. apply lookup_app_l_Some, Hi.
    + unfold MakeDialer, new. simpl fst. simpl snd.
      split; [reflexivity|]. split; [rewrite length_app; reflexivity|].
      intros i o Hi. apply lookup_app_l_Some, Hi.
  - destruct p as [p|]; unfold MakeListenConfig, new; simpl fst; simpl snd;
      (split; [reflexivity|]; split; [rewrite length_app; simpl; lia|];
       intros i o Hi; apply lookup_app_l_Some, Hi).
Qed.

(** X15: the listener configuration made for a Protector carries the
    hook of that Protector, the same as the Dialer's: on every socket of
    the listener the hook calls [Protect] once on [int32(fd)], logs when
    the answer is false, and returns nil either way. *)
Theorem MakeListenConfig_protects (p : Protector PS)
  (h : Heap PS Context Conn) (l : ptr) (h' : Heap PS Context Conn) :
  MakeListenConfig (Some p) h = (l, h') ->
  exists lc hook,
    h' !! l = Some (OListenConfig lc) /\
    ListenConfig_Control lc = Some hook /\
    ListenConfig_KeepAlive lc = 0 /\
    (forall dl,
        snd (MakeDialer connect (Some p) h) !! fst (MakeDialer connect (Some p) h)
          = Some (ODialer dl) ->
        Dialer_Control dl = Some hook) /\
    forall network address fd env ok ps',
      Protect p (int32 fd) (pstate env) = (ok, ps') ->
      hook network address (RawConnFD fd) env =
        (None,
         {| pstate := ps';
            trace := (trace env ++
                      EvProtect (int32 fd) ok ::
                      (if ok then []
                       else [EvErrorf ("Failed to protect a " ++ network
                                       ++ " socket")]))%list |}).
Proof.
  unfold MakeListenConfig, new. intros H. injection H as <- <-.
  eexists _, (makeControl p).
  split; [apply list_lookup_middle; reflexivity|].
  split; [reflexivity|]. split; [reflexivity|]. split.
  - intros dl. rewrite MakeDialer_Some. simpl fst. simpl snd.
    rewrite list_lookup_middle by reflexivity.
    intros Hd. injection Hd as <-. reflexivity.
  - intros network address fd env ok ps' Hp.
    apply (makeControl_live _ _ _ _ _ _ _ Hp).
Qed.

(** X16: two Dialers made one after the other are two objects, and the
    second [MakeDialer] leaves the first Dialer as it was: it still has
    the hook of its own Protector, and its Resolver still dials through
    it and asks its own Protector. *)
Theorem MakeDialer_twice (p1 p2 : Protector PS) (h : Heap PS Context Conn)
  (d1 d2 : ptr) (h1 h2 : Heap PS Context Conn) :
  MakeDialer connect (Some p1) h = (d1, h1) ->
  MakeDialer connect (Some p2) h1 = (d2, h2) ->
  d1 <> d2 /\
  exists dl1 r1 rs1 dl2 r2 rs2,
    h2 !! d1 = Some (ODialer dl1) /\
    Dialer_Control dl1 = Some (makeControl p1) /\
    Dialer_Resolver dl1 = Some r1 /\
    h2 !! r1 = Some (OResolver rs1) /\
    Resolver_Dial rs1 = Some (resolverDialer connect p1 d1) /\
    h2 !! d2 = Some (ODialer dl2) /\
    Dialer_Control dl2 = Some (makeControl p2) /\
    Dialer_Resolver dl2 = Some r2 /\
    h2 !! r2 = Some (OResolver rs2) /\
    Resolver_Dial rs2 = Some (resolverDialer connect p2 d2) /\
    r1 <> r2 /\ r1 <> d2 /\ r2 <> d1.
Proof.
  rewrite !MakeDialer_Some. intros H1 H2.
  injection H1 as <- <-. injection H2 as <- <-.
  rewrite !length_app. simpl List.length.
  split; [lia|].
  eexists _, (S (List.length h)), _, _, (S (List.length h + 2)), _.
  assert (Hd1 : forall (a b : Obj PS Context Conn) t,
             ((h ++ [a; b]) ++ t)%list !! List.length h = Some a).
  { intros a b t. rewrite <- app_assoc. apply list_lookup_middle. reflexivity. }
  assert (Hr1 : forall (a b : Obj PS Context Conn) t,
             ((h ++ [a; b]) ++ t)%list !! S (List.length h) = Some b).
  { intros a b t. rewrite <- app_assoc.
    change (h ++ [a; b] ++ t)%list with (h ++ [a] ++ b :: t)%list.
    rewrite app_assoc. apply list_lookup_middle.
    rewrite length_app. simpl. lia. }
  split; [apply Hd1|]. split; [reflexivity|]. split; [reflexivity|].
  split; [apply Hr1|]. split; [reflexivity|].
  split; [apply list_lookup_middle; rewrite length_app; reflexivity|].
  split; [reflexivity|]. split; [reflexivity|].
  split.
  { change ((h ++ [?a; ?b]) ++ [?c; ?e])%list
      with ((h ++ [a; b]) ++ [c] ++ [e])%list.
    rewrite app_assoc. apply list_lookup_middle.
    rewrite !length_app. simpl. lia. }
  split; [reflexivity|].
  repeat split; lia.
Qed.

End FactoryProperties.

Lemma MakeListenConfig_protects_witness :
  exists lc hook,
    snd (MakeListenConfig (Some (hostProtector false "10.0.0.1"))
           (@nil (Obj nat unit nat))) !! 0%nat = Some (OListenConfig lc) /\
    ListenConfig_Control lc = Some hook /\
    ListenConfig_KeepAlive lc = 0 /\
    (forall dl,
        snd (MakeDialer reach (Some (hostProtector false "10.0.0.1")) [])
          !! fst (MakeDialer reach (Some (hostProtector false "10.0.0.1")) [])
          = Some (ODialer dl) ->
        Dialer_Control dl = Some hook) /\
    forall network address fd env ok ps',
      Protect (hostProtector false "10.0.0.1") (int32 fd) (pstate env)
        = (ok, ps') ->
      hook network address (RawConnFD fd) env =
        (None,
         {| pstate := ps';
            trace := (trace env ++
                      EvProtect (int32 fd) ok ::
                      (if ok then []
                       else [EvErrorf ("Failed to protect a " ++ network
                                       ++ " socket")]))%list |}).
Proof.
  apply (MakeListenConfig_protects nat unit nat reach
           (hostProtector false "10.0.0.1") [] 0%nat).
  reflexivity.
Defined.

Lemma MakeDialer_twice_witness :
  0%nat <> 2%nat /\
  exists dl1 r1 rs1 dl2 r2 rs2,
    snd (MakeDialer reach (Some (hostProtector false "fd00::53"))
           (snd (MakeDialer reach (Some (hostProtector true "10.0.0.1")) [])))
      !! 0%nat = Some (ODialer dl1) /\
    Dialer_Control dl1 = Some (makeControl (hostProtector true "10.0.0.1")) /\
    Dialer_Resolver dl1 = Some r1 /\
    snd (MakeDialer reach (Some (hostProtector false "fd00::53"))
           (snd (MakeDialer reach (Some (hostProtector true "10.0.0.1")) [])))
      !! r1 = Some (OResolver rs1) /\
    Resolver_Dial rs1
      = Some (resolverDialer reach (hostProtector true "10.0.0.1") 0%nat) /\
    snd (MakeDialer reach (Some (hostProtector false "fd00::53"))
           (snd (MakeDialer reach (Some (hostProtector true "10.0.0.1")) [])))
      !! 2%nat = Some (ODialer dl2) /\
    Dialer_Control dl2 = Some (makeControl (hostProtector false "fd00::53")) /\
    Dialer_Resolver dl2 = Some r2 /\
    snd (MakeDialer reach (Some (hostProtector false "fd00::53"))
           (snd (MakeDialer reach (Some (hostProtector true "10.0.0.1")) [])))
      !! r2 = Some (OResolver rs2) /\
    Resolver_Dial rs2
      = Some (resolverDialer reach (hostProtector false "fd00::53") 2%nat) /\
    r1 <> r2 /\ r1 <> 2%nat /\ r2 <> 0%nat.
Proof.
  apply (MakeDialer_twice nat unit nat reach
           (hostProtector true "10.0.0.1") (hostProtector false "fd00::53")
           [] 0%nat 2%nat
           (snd (MakeDialer reach (Some (hostProtector true "10.0.0.1")) []))).
  - reflexivity.
  - reflexivity.
Defined.

Lemma makeControl_quiet_witness :
  makeControl (hostProtector true "10.0.0.1") "udp6" "[::]:0" (RawConnFD 7)
    {| pstate := 4%nat; trace := [] |}
  = (None, {| pstate := 5%nat; trace := [EvProtect 7 true] |}) /\
  makeControl (hostProtector true "10.0.0.1") "udp6" "[::]:0"
    (RawConnClosed (errorString "use of closed network connection"))
    {| pstate := 4%nat; trace := [] |}
  = (Some (errorString "use of closed network connection"),
     {| pstate := 4%nat; trace := [] |}).
Proof.
  destruct (makeControl_quiet nat (hostProtector true "10.0.0.1") "udp6" "[::]:0"
              {| pstate := 4%nat; trace := [] |}) as [Hlive Hclosed].
  split.
  - apply (Hlive 7 5%nat). reflexivity.
  - apply Hclosed.
Defined.

Lemma makeControl_socket_witness :
  int32 9 = 9 /\
  makeControl (hostProtector false "10.0.0.1") "tcp" "[::1]:53"
    (RawConnFD (9 + 1 * 2 ^ 32)) {| pstate := 0%nat; trace := [] |}
  = makeControl (hostProtector false "10.0.0.1") "tcp" "[::1]:53"
      (RawConnFD 9) {| pstate := 0%nat; trace := [] |}.
Proof.
  destruct (makeControl_socket nat (hostProtector false "10.0.0.1") "tcp"
              "[::1]:53" 9 {| pstate := 0%nat; trace := [] |})
    as [[ok [ps' [_ [_ [Hsmall _]]]]] Hwrap].
  split.
  - apply Hsmall. lia.
  - apply (Hwrap 1).
Defined.

(** ** The resolver list as [GetResolvers] gives it *)

Lemma append_nil_r (s : string) : (s ++ EmptyString)%string = s.
Proof. induction s as [|c s IH]; simpl; [reflexivity | rewrite IH; reflexivity]. Qed.

Lemma rev_acc_rev_acc (a acc acc' : string) :
  rev_acc (rev_acc a acc) acc' = rev_acc acc (a ++ acc').
Proof.
  revert acc acc'. induction a as [|x a IH]; intros acc acc'; simpl;
    [reflexivity|].
  rewrite IH. reflexivity.
Qed.

Lemma HasPrefix_nil (s : string) : HasPrefix s EmptyString = true.
Proof. destruct s; reflexivity. Qed.

Lemma split_loop_comma_step (c : ascii) (s cur : string) :
  split_loop "," (String c s) 0 cur =
    if Ascii.eqb c ","
    then rev_acc cur EmptyString :: split_loop "," s 0 EmptyString
    else split_loop "," s 0 (String c cur).
Proof.
  change (split_loop "," (String c s) 0 cur)
    with (if Ascii.eqb c "," && HasPrefix s EmptyString
          then rev_acc cur EmptyString :: split_loop "," s 0 EmptyString
          else split_loop "," s 0 (String c cur)).
  rewrite HasPrefix_nil, andb_true_r. reflexivity.
Qed.

Lemma split_loop_comma (a rest cur : string) :
  hasByte a "," = false ->
  split_loop "," (a ++ String "," rest) 0 cur
  = rev_acc (rev_acc a cur) EmptyString :: split_loop "," rest 0 EmptyString.
Proof.
  revert cur. induction a as [|c a IH]; intros cur Ha.
  - change (EmptyString ++ String "," rest)%string with (String "," rest).
    rewrite split_loop_comma_step. reflexivity.
  - simpl in Ha. apply orb_false_elim in Ha. destruct Ha as [Hc Ha].
    change (String c a ++ String "," rest)%string
      with (String c (a ++ String "," rest)).
    rewrite split_loop_comma_step, Hc. apply IH, Ha.
Qed.

Lemma split_loop_single (a cur : string) :
  hasByte a "," = false ->
  split_loop "," a 0 cur = [rev_acc (rev_acc a cur) EmptyString].
Proof.
  revert cur. induction a as [|c a IH]; intros cur Ha.
  - reflexivity.
  - simpl in Ha. apply orb_false_elim in Ha. destruct Ha as [Hc Ha].
    rewrite split_loop_comma_step, Hc. apply IH, Ha.
Qed.

(** The first piece of a comma-separated list. *)
Lemma Split_first (first rest : string) :
  hasByte first "," = false ->
  Split first "," = [first] /\
  Split (first ++ String "," rest) "," = first :: Split rest ",".
Proof.
  intros Ha. unfold Split. split.
  - rewrite (split_loop_single _ _ Ha), rev_acc_rev_acc. simpl.
    rewrite append_nil_r. reflexivity.
  - rewrite (split_loop_comma _ _ _ Ha), rev_acc_rev_acc. simpl.
    rewrite append_nil_r. reflexivity.
Qed.

Section ResolverList.

Variables PS Context Conn : Type.
Variable connect :
  ptr -> Context -> string -> string -> M PS (option Conn * option error).

(** X17: the resolver listed first wins when it is of the family of the
    target: when what [GetResolvers] returns starts with an IP literal of
    the family of the host of the address, alone or followed by a comma
    and anything, the resolver dial function dials that literal with the
    port of the address, through its Dialer. *)
Theorem resolverDialer_first (p : Protector PS) (d : ptr) (ctx : Context)
  (network address : string) (env : Env PS)
  (resolvers first rest : string) (ps' : PS)
  (orighost port : string) (origip : net.IP) :
  GetResolvers p (pstate env) = (resolvers, ps') ->
  resolvers = first \/ resolvers = (first ++ String "," rest)%string ->
  net.SplitHostPort address = (orighost, port, None) ->
  net.ParseIP orighost = Some origip ->
  matches (isV4 origip) first ->
  resolverDialer connect p d ctx network address env =
    DialContext connect d ctx network (net.JoinHostPort first port)
      {| pstate := ps';
         trace := (trace env ++ [EvGetResolvers resolvers])%list |}.
Proof.
  intros Hg Hshape Hs Hp Hm.
  rewrite (resolverDialer_run _ _ _ _ _ _ _ _ _ _ _ _ Hg). cbv zeta.
  assert (Hcomma : hasByte first "," = false).
  { destruct Hm as [parsed [Hparsed _]].
    apply (ParseIP_bytes "," eq_refl ltac:(discriminate) ltac:(discriminate)
             _ _ Hparsed). }
  destruct (Split_first first rest Hcomma) as [H1 H2].
  assert (Hl : exists tl, Split resolvers "," = first :: tl).
  { destruct Hshape as [-> | ->]; [exists []; exact H1 | eexists; exact H2]. }
  destruct Hl as [tl ->].
  rewrite (replaceIP_parsed _ _ _ _ _ _ Hs Hp).
  rewrite (scan_cons_match _ _ _ Hm).
  apply matches_nonempty, String.eqb_neq in Hm. rewrite Hm. reflexivity.
Qed.

End ResolverList.

Lemma resolverDialer_first_witness :
  resolverDialer reach (hostProtector true "10.0.0.1, 10.0.0.2,,x") 3%nat tt
    "udp" "8.8.8.8:53" {| pstate := 0%nat; trace := [] |} =
    DialContext reach 3%nat tt "udp" (net.JoinHostPort "10.0.0.1" "53")
      {| pstate := 1%nat;
         trace := ([] ++ [EvGetResolvers "10.0.0.1, 10.0.0.2,,x"])%list |}.
Proof.
  apply (resolverDialer_first nat unit nat reach
           (hostProtector true "10.0.0.1, 10.0.0.2,,x") 3%nat tt "udp"
           "8.8.8.8:53" {| pstate := 0%nat; trace := [] |}
           "10.0.0.1, 10.0.0.2,,x" "10.0.0.1" " 10.0.0.2,,x" 1%nat
           "8.8.8.8" "53" (net.IPv4 8 8 8 8)).
  - reflexivity.
  - right. reflexivity.
  - reflexivity.
  - reflexivity.
  - exists (net.IPv4 10 0 0 1). split; reflexivity.
Defined.
